(** * Web dump: file discovery, classification and preview rendering

    A shallow embedding of [app.py], the script that serves the files of one
    directory as a single HTML page, and the properties of its pipeline
    [read_files] -> [sorted] -> [WebFile.generate_html] -> [index].

    Conventions of the embedding.
    - A Python [str] is represented by its UTF-8 encoding, a [string] of
      bytes; code point order on [str] is byte order on the encoding.
    - A [pathlib.Path] is the list of its components. Paths are resolved
      from inode 0 of the inode table (the directory the process runs in),
      following symbolic links as [is_file], [is_dir] and [iterdir] do. A
      symbolic link is a node of its own; the operating system follows at
      most [MAXSYMLINKS] links while it resolves one path and fails with
      ELOOP beyond, which [is_file] and [is_dir] answer with [False].
    - Directories are listable and a special file is one that cannot be
      opened: a directory without read permission, and a device or a FIFO,
      are outside the model.
    - An effectful function returns the lines it printed on standard output
      together with its outcome: a value, a raised exception, or
      [OutOfFuel]. The fuel of [read_files] is the depth of recursion the
      interpreter allows ([sys.getrecursionlimit()], 1000 by default, less
      the frames in use when [index] is called), and [OutOfFuel] is the
      [RecursionError] that ends a deeper recursion; nothing catches it. *)

From Stdlib Require Import Strings.String Strings.Ascii NArith Lia.
From stdpp Require Import base option list strings sorting.


(** ** Strings *)

Definition dq : string := String "034"%char EmptyString.
Definition nl : string := String "010"%char EmptyString.
Definition LF : ascii := "010"%char.
Definition CR : ascii := "013"%char.

(** The text of a triple-quoted literal that opens with a line break and
    whose every line is closed by a line break. *)
Definition py_lines (ls : list string) : string :=
  nl +:+ foldr (fun l acc => l +:+ nl +:+ acc) EmptyString ls.

(** [x in xs] for a list of strings. *)
Definition py_in (x : string) (xs : list string) : bool :=
  existsb (String.eqb x) xs.

Definition HTML_HEAD_lines : list string :=
  [ "<!DOCTYPE html>";
    ("<html lang=" +:+ dq +:+ "en" +:+ dq +:+ ">");
    "<head>";
    ("<meta charset=" +:+ dq +:+ "UTF-8" +:+ dq +:+ ">");
    ("<meta name=" +:+ dq +:+ "viewport" +:+ dq +:+ " content=" +:+ dq +:+ "width=device-width, initial-scale=1.0" +:+ dq +:+ ">");
    "<title>Web dump</title>";
    "<style>";
    "    .scroll-box {";
    "        width: 300px; /* Set the width of the box */";
    "        height: 200px; /* Set the height of the box */";
    "        overflow: auto; /* Enable scrolling */";
    "        border: 1px solid #ccc; /* Add border for styling */";
    "        padding: 10px; /* Add padding for content spacing */";
    "    }";
    "    .collapsible {";
    "        cursor: pointer;";
    "    }";
    "    .content {";
    "        margin-top:10px;";
    "        display: none;";
    "        overflow: hidden;";
    "    }";
    "    img {";
    "        max-height:";
    "        width: auto;";
    "    }";
    "    video {";
    "        max-height: 300px;";
    "        width: auto;";
    "    }";
    "</style>";
    ("<link href=" +:+ dq +:+ "https://cdn.jsdelivr.net/npm/bootstrap@5.3.0-alpha1/dist/css/bootstrap.min.css" +:+ dq +:+ " rel=" +:+ dq +:+ "stylesheet" +:+ dq +:+ ">");
    "</head>";
    ("<body class=" +:+ dq +:+ "bg-secondary-subtle" +:+ dq +:+ ">");
    ("<nav class=" +:+ dq +:+ "navbar navbar-dark bg-secondary" +:+ dq +:+ " style=" +:+ dq +:+ "margin-bottom: 20px;" +:+ dq +:+ ">");
    ("  <a class=" +:+ dq +:+ "navbar-brand" +:+ dq +:+ " style=" +:+ dq +:+ "margin-left: 10px;" +:+ dq +:+ " href=" +:+ dq +:+ "#" +:+ dq +:+ ">Dump to web</a>");
    "</nav>" ].

Definition HTML_FOOT_lines : list string :=
  [ "<script>";
    ("    var coll = document.getElementsByClassName(" +:+ dq +:+ "collapsible" +:+ dq +:+ ");");
    "    var i;";
    EmptyString;
    "    for (i = 0; i < coll.length; i++) {";
    ("        coll[i].addEventListener(" +:+ dq +:+ "click" +:+ dq +:+ ", function() {");
    ("            this.classList.toggle(" +:+ dq +:+ "active" +:+ dq +:+ ");");
    "            var content = this.nextElementSibling;";
    ("            if (content.style.display === " +:+ dq +:+ "block" +:+ dq +:+ ") {");
    ("                this.textContent = " +:+ dq +:+ "Open" +:+ dq +:+ ";");
    ("                content.style.display = " +:+ dq +:+ "none" +:+ dq +:+ ";");
    "            } else {";
    ("                this.textContent = " +:+ dq +:+ "Close" +:+ dq +:+ ";");
    ("                content.style.display = " +:+ dq +:+ "block" +:+ dq +:+ ";");
    "            }";
    "        });";
    "    }";
    "</script>";
    "</body>";
    "</html>" ].

Definition HTML_HEAD : string := py_lines HTML_HEAD_lines.
Definition HTML_FOOT : string := py_lines HTML_FOOT_lines.

Definition VIDEO_MIME_TYPES : list string :=
  [ "video/mp4"; "video/webm"; "video/ogg" ].

Definition IMAGE_MIME_TYPES : list string :=
  [ "image/jpeg"; "image/png"; "image/gif"; "image/svg+xml"; "image/webp";
    "image/bmp"; "image/x-icon"; "image/tiff"; "image/jp2" ].

(** ** Paths *)

Definition path := list string.

(** [str(p)]: the components joined by the separator; the empty path is
    the current directory. *)
Definition path_str (p : path) : string :=
  match p with
  | [] => "."
  | _ => String.concat "/" p
  end.

(** [p / name], as [iterdir] builds the children of [p]. *)
Definition joinpath (p : path) (name : string) : path := p ++ [name].

(** [p.relative_to(base)]: [None] stands for the [ValueError] raised when
    [base] is not a prefix of [p]. *)
Fixpoint relative_to (p base : path) {struct base} : option path :=
  match base, p with
  | [], _ => Some p
  | b :: base', c :: p' =>
      if String.eqb b c then relative_to p' base' else None
  | _ :: _, [] => None
  end.

(** Comparison of two paths, as [sorted] uses it: the lists of components
    are compared lexicographically, a proper prefix first, and components
    are compared as strings. *)
Fixpoint path_leb (p q : path) : bool :=
  match p, q with
  | [], _ => true
  | _ :: _, [] => false
  | a :: p', b :: q' =>
      if String.eqb a b then path_leb p' q' else String.ltb a b
  end.

Definition path_le (p q : path) : Prop := path_leb p q = true.

#[global] Instance path_le_dec : RelDecision path_le.
Proof. intros p q. unfold path_le. apply _. Defined.

(** [sorted(l)] on a list of paths. *)
Definition sorted (l : list path) : list path := merge_sort path_le l.

(** ** The file system *)

Definition inode := nat.

(** A regular file: the content type [magic] detects for it, its bytes,
    and whether the process may open it for reading. *)
Record file := File {
  f_mime : string;
  f_content : string;
  f_readable : bool
}.

(** A node of the file system: a regular file, a directory with its
    entries in the order the operating system reports them, a symbolic link
    with the inode it points to, or a special file that cannot be opened (a
    socket). An entry or a link that names no inode of the table is
    dangling. *)
Inductive node :=
  | NFile (f : file)
  | NDir (entries : list (string * inode))
  | NLink (target : inode)
  | NSpecial.

Definition filesystem := list node.

(** The number of symbolic links the operating system follows in the
    resolution of one path: 40 on Linux; the next one fails with ELOOP. *)
Definition MAXSYMLINKS : nat := 40.

Fixpoint lookup_entry (name : string) (es : list (string * inode)) : option inode :=
  match es with
  | [] => None
  | (n, i) :: es' => if String.eqb n name then Some i else lookup_entry name es'
  end.

(** Follow the symbolic links that start at inode [i], at most [budget] of
    them: the inode reached, which is no link, and the budget left. *)
Fixpoint follow (fs : filesystem) (budget : nat) (i : inode) {struct budget}
    : option (inode * nat) :=
  match fs !! i with
  | Some (NLink t) =>
      match budget with
      | 0 => None
      | S b => follow fs b t
      end
  | Some _ => Some (i, budget)
  | None => None
  end.

(** Resolve [p] from the directory [i], following links within [budget]. *)
Fixpoint resolve_from (fs : filesystem) (budget : nat) (i : inode) (p : path)
    : option (inode * nat) :=
  match p with
  | [] => Some (i, budget)
  | name :: p' =>
      match fs !! i with
      | Some (NDir es) =>
          match lookup_entry name es with
          | Some j =>
              match follow fs budget j with
              | Some (j', b') => resolve_from fs b' j' p'
              | None => None
              end
          | None => None
          end
      | _ => None
      end
  end.

(** [os.stat(p)], which follows links; [None] when it fails. *)
Definition stat (fs : filesystem) (p : path) : option node :=
  match resolve_from fs MAXSYMLINKS 0 p with
  | Some (i, _) => fs !! i
  | None => None
  end.

Definition is_dir (fs : filesystem) (p : path) : bool :=
  match stat fs p with
  | Some (NDir _) => true
  | _ => false
  end.

Definition is_file (fs : filesystem) (p : path) : bool :=
  match stat fs p with
  | Some (NFile _) => true
  | _ => false
  end.

(** ** Effects: standard output, exceptions, recursion depth *)

Inductive exn :=
  | TypeError (msg : string)
  | ValueError
  | UnicodeDecodeError
  | PermissionError (p : path)
  | FileNotFoundError (p : path)
  | OSError (p : path).

Inductive outcome (A : Type) :=
  | Ret (a : A)
  | Raise (e : exn)
  | OutOfFuel.
Arguments Ret {A} a.
Arguments Raise {A} e.
Arguments OutOfFuel {A}.

Definition M (A : Type) : Type := list string * outcome A.

Definition ret {A} (a : A) : M A := ([], Ret a).
Definition raise {A} (e : exn) : M A := ([], Raise e).
Definition out_of_fuel {A} : M A := ([], OutOfFuel).
Definition print (msg : string) : M unit := ([msg], Ret tt).

Definition bind {A B} (m : M A) (k : A -> M B) : M B :=
  match m with
  | (out, Ret a) => let '(out', r) := k a in (out ++ out', r)
  | (out, Raise e) => (out, Raise e)
  | (out, OutOfFuel) => (out, OutOfFuel)
  end.

Notation "x <- m ;; k" := (bind m (fun x => k))
  (at level 100, m at next level, right associativity).
Notation "m ;;; k" := (bind m (fun _ => k))
  (at level 100, right associativity).

(** [try: m except E: h], for the exceptions [E] that [handles] accepts. *)
Definition try_except {A} (m : M A) (handles : exn -> bool) (h : M A) : M A :=
  match m with
  | (out, Raise e) =>
      if handles e then let '(out', r) := h in (out ++ out', r) else m
  | _ => m
  end.

(** [for x in xs: acc = body(acc, x)] *)
Fixpoint for_each {A B} (xs : list A) (acc : B) (body : B -> A -> M B) : M B :=
  match xs with
  | [] => ret acc
  | x :: xs' => acc' <- body acc x ;; for_each xs' acc' body
  end.

Definition stdout {A} (m : M A) : list string := fst m.
Definition result {A} (m : M A) : outcome A := snd m.

(** ** Library calls *)

(** [directory.iterdir()]: the entries in the order the operating system
    reports them. The program calls it for directories only, and every
    directory of the model can be listed. *)
Definition iterdir (fs : filesystem) (p : path) : M (list path) :=
  match stat fs p with
  | Some (NDir es) => ret (map (fun e => joinpath p (fst e)) es)
  | Some _ => raise (OSError p)
  | None => raise (FileNotFoundError p)
  end.

(** [magic.Magic(mime=True).from_file(p)]: the file is opened first, so a
    file that cannot be opened raises; otherwise the detected type is
    returned. The program calls it for regular files only. *)
Definition from_file (fs : filesystem) (p : path) : M string :=
  match stat fs p with
  | Some (NFile f) =>
      if f_readable f then ret (f_mime f) else raise (PermissionError p)
  | Some _ => raise (OSError p)
  | None => raise (FileNotFoundError p)
  end.

(** Strict UTF-8: the decoder as an automaton over the bytes. After a lead
    byte, [U_cont n lo hi] expects [n] more bytes, the next one between
    [lo] and [hi]. *)
Inductive utf8_state :=
  | U_start
  | U_cont (n : nat) (lo hi : N).

Definition between (lo hi b : N) : bool := ((lo <=? b) && (b <=? hi))%N.

Definition utf8_step (st : utf8_state) (b : N) : option utf8_state :=
  match st with
  | U_start =>
      if (b <=? 127)%N then Some U_start
      else if between 194 223 b then Some (U_cont 1 128 191)
      else if (b =? 224)%N then Some (U_cont 2 160 191)
      else if between 225 236 b then Some (U_cont 2 128 191)
      else if (b =? 237)%N then Some (U_cont 2 128 159)
      else if between 238 239 b then Some (U_cont 2 128 191)
      else if (b =? 240)%N then Some (U_cont 3 144 191)
      else if between 241 243 b then Some (U_cont 3 128 191)
      else if (b =? 244)%N then Some (U_cont 3 128 143)
      else None
  | U_cont n lo hi =>
      if between lo hi b then
        match n with
        | 0 | 1 => Some U_start
        | S n' => Some (U_cont n' 128 191)
        end
      else None
  end.

Fixpoint utf8_run (st : utf8_state) (s : string) : bool :=
  match s with
  | EmptyString => match st with U_start => true | _ => false end
  | String c s' =>
      match utf8_step st (N_of_ascii c) with
      | Some st' => utf8_run st' s'
      | None => false
      end
  end.

Definition utf8_valid (bytes : string) : bool := utf8_run U_start bytes.

(** Universal newlines, the default of [open] in text mode: a carriage
    return, alone or before a line feed, is read as one line feed. *)
Fixpoint universal_newlines (s : string) : string :=
  match s with
  | EmptyString => EmptyString
  | String c s' =>
      if Ascii.eqb c CR then
        String LF
          match s' with
          | String c' s'' =>
              if Ascii.eqb c' LF then universal_newlines s''
              else universal_newlines s'
          | EmptyString => EmptyString
          end
      else String c (universal_newlines s')
  end.

(** [with open(p, 'r', encoding='utf-8') as f: f.read()] *)
Definition read_text (fs : filesystem) (p : path) : M string :=
  match stat fs p with
  | Some (NFile f) =>
      if f_readable f then
        if utf8_valid (f_content f) then ret (universal_newlines (f_content f))
        else raise UnicodeDecodeError
      else raise (PermissionError p)
  | Some _ => raise (OSError p)
  | None => raise (FileNotFoundError p)
  end.

(** ** The program *)

(** The command line: [-d], [-r] and [--verbose]. *)
Record arguments := Args {
  directory : path;
  recursive : bool;
  verbose : bool
}.

Definition scan_dir (args : arguments) : path := directory args.

Definition vprint (args : arguments) (message : string) : M unit :=
  if negb (verbose args) then ret tt
  else print message.

Definition get_html_link (file_path file_type : string) : string :=
  let ret := "<a class=" +:+ dq +:+ "link-primary" +:+ dq +:+ " href=" +:+ dq
             +:+ file_path +:+ dq +:+ " target=" +:+ dq +:+ "_blank" +:+ dq
             +:+ ">" +:+ file_path +:+ "</a>" in
  let ret := ret +:+ (" <sub>(" +:+ file_type +:+ ")</sub>") in
  ret.

Definition get_html_text_plain (text : string) : string :=
  "<div class=" +:+ dq +:+ "scroll-box" +:+ dq +:+ ">" +:+ text +:+ "</div>".

Definition get_html_image (file_path : string) : string :=
  "<img src=" +:+ dq +:+ file_path +:+ dq +:+ " alt=" +:+ dq
  +:+ "Image Description" +:+ dq +:+ ">".

Definition get_html_video (file_path video_type : string) : string :=
  let ret := "<video controls>" in
  let ret := ret +:+ ("<source src=" +:+ dq +:+ file_path +:+ dq +:+ " type="
                      +:+ dq +:+ video_type +:+ dq +:+ ">") in
  let ret := ret +:+ "</video>" in
  ret.

Record WebFile := mkWebFile {
  file_path : path;
  file_rel_path : path;
  file_type : option string;
  html : option string
}.

(** [WebFile(path)] *)
Definition WebFile_init (args : arguments) (p : path) : M WebFile :=
  match relative_to p (scan_dir args) with
  | Some rel =>
      ret {| file_path := p; file_rel_path := rel;
             file_type := None; html := None |}
  | None => raise ValueError
  end.

(** Truth value of [preview]: [None] and the empty string are false. *)
Definition truthy (preview : option string) : bool :=
  match preview with
  | Some (String _ _) => true
  | _ => false
  end.

Definition is_UnicodeDecodeError (e : exn) : bool :=
  match e with
  | UnicodeDecodeError => true
  | _ => false
  end.

Definition card_open : string :=
  "<div class=" +:+ dq +:+ "card bg-primary-subtle" +:+ dq +:+ " style=" +:+ dq
  +:+ "width:90%; margin:0 auto;" +:+ dq +:+ ">".
Definition card_body_open : string :=
  "<div class=" +:+ dq +:+ "card-body" +:+ dq +:+ ">".
Definition collapsible_button : string :=
  " <button class=" +:+ dq +:+ "collapsible btn btn-secondary btn-sm" +:+ dq
  +:+ ">Open</button>".
Definition content_open : string :=
  "<div class=" +:+ dq +:+ "content" +:+ dq +:+ ">".

(** The [match] on the detected type that sets [preview]. *)
Definition make_preview (fs : filesystem) (args : arguments) (self : WebFile)
    (ftype : string) : M (option string) :=
  if String.eqb ftype "text/plain" then
    try_except
      (text <- read_text fs (file_path self) ;;
       ret (Some (get_html_text_plain text)))
      is_UnicodeDecodeError
      (vprint args ("Failed to decode " +:+ path_str (file_path self)) ;;;
       ret None)
  else if py_in ftype VIDEO_MIME_TYPES then
    ret (Some (get_html_video (path_str (file_rel_path self)) ftype))
  else if py_in ftype IMAGE_MIME_TYPES then
    ret (Some (get_html_image (path_str (file_rel_path self))))
  else ret None.

Definition generate_html (fs : filesystem) (args : arguments) (self : WebFile)
    : M WebFile :=
  ftype <- from_file fs (file_path self) ;;
  let h := card_open in
  let h := h +:+ card_body_open in
  let h := h +:+ get_html_link (path_str (file_rel_path self)) ftype in
  preview <- make_preview fs args self ftype ;;
  let h :=
    if truthy preview then
      let h := h +:+ collapsible_button in
      let h := h +:+ content_open in
      let h := h +:+ default EmptyString preview in
      h +:+ "</div>"
    else h in
  let h := h +:+ "</div></div><br/>" in
  ret {| file_path := file_path self; file_rel_path := file_rel_path self;
         file_type := Some ftype; html := Some h |}.

Definition get_html (self : WebFile) : string :=
  match html self with
  | Some (String c s) => String c s
  | _ => EmptyString
  end.

(** [read_files(directory, recursive)]; [fuel] bounds the depth of the
    recursion, and a deeper recursion gives [OutOfFuel]. *)
Fixpoint read_files (fuel : nat) (fs : filesystem) (args : arguments)
    (dir : path) (rec : bool) {struct fuel} : M (list path) :=
  match fuel with
  | 0 => out_of_fuel
  | S fuel' =>
      if negb (is_dir fs dir) then
        raise (TypeError (path_str dir +:+ " is not a directory"))
      else
        files <- iterdir fs dir ;;
        for_each files []
          (fun objects file =>
             if is_file fs file then ret (objects ++ [file])
             else if is_dir fs file then
               if rec then
                 sub <- read_files fuel' fs args file rec ;;
                 ret (objects ++ sub)
               else ret objects
             else
               vprint args (path_str file
                            +:+ " is neither file nor directory, ignoring") ;;;
               ret objects)
  end.

(** The route [/]. *)
Definition index (fuel : nat) (fs : filesystem) (args : arguments) : M string :=
  file_store <- read_files fuel fs args (scan_dir args) (recursive args) ;;
  let h := HTML_HEAD in
  h <- for_each (sorted file_store) h
         (fun h fil =>
            wf <- WebFile_init args fil ;;
            wf <- generate_html fs args wf ;;
            ret (h +:+ get_html wf)) ;;
  let h := h +:+ HTML_FOOT in
  ret h.

(** ** Vocabulary of the statements *)

(** The card of one file, as the body of the loop of [index] builds it. *)
Definition render (fs : filesystem) (args : arguments) (fil : path) : M string :=
  wf <- WebFile_init args fil ;;
  wf <- generate_html fs args wf ;;
  ret (get_html wf).

(** A card that shows the link and the type label only. *)
Definition card_link_only (link : string) : string :=
  ((card_open +:+ card_body_open) +:+ link) +:+ "</div></div><br/>".

(** A card that shows the link, the type label and a collapsible preview. *)
Definition card_with_preview (link preview : string) : string :=
  ((((((card_open +:+ card_body_open) +:+ link) +:+ collapsible_button)
      +:+ content_open) +:+ preview) +:+ "</div>") +:+ "</div></div><br/>".

(** The page made of the given cards. *)
Definition page_of (cards : list string) : string :=
  HTML_HEAD +:+ foldr String.append EmptyString cards +:+ HTML_FOOT.

(** The preview and the card of a readable file, from its relative path,
    its detected type and its bytes. *)
Definition preview_of (rel : path) (f : file) : option string :=
  if String.eqb (f_mime f) "text/plain" then
    if utf8_valid (f_content f)
    then Some (get_html_text_plain (universal_newlines (f_content f)))
    else None
  else if py_in (f_mime f) VIDEO_MIME_TYPES then
    Some (get_html_video (path_str rel) (f_mime f))
  else if py_in (f_mime f) IMAGE_MIME_TYPES then
    Some (get_html_image (path_str rel))
  else None.

Definition card_of (rel : path) (f : file) : string :=
  let link := get_html_link (path_str rel) (f_mime f) in
  match preview_of rel f with
  | Some preview => card_with_preview link preview
  | None => card_link_only link
  end.

(** [c] is the card of the regular file at [p]. *)
Definition is_card_of (fs : filesystem) (args : arguments) (p : path)
    (c : string) : Prop :=
  exists f rel,
    stat fs p = Some (NFile f)
    /\ relative_to p (scan_dir args) = Some rel
    /\ c = card_of rel f.

(** The body of the loop of [index]. *)
Definition index_body (fs : filesystem) (args : arguments) (h : string)
    (fil : path) : M string :=
  wf <- WebFile_init args fil ;;
  wf <- generate_html fs args wf ;;
  ret (h +:+ get_html wf).

(** The paths [iterdir] yields for a directory, none for anything else. *)
Definition children (fs : filesystem) (dir : path) : list path :=
  match stat fs dir with
  | Some (NDir es) => map (fun e => joinpath dir (fst e)) es
  | _ => []
  end.

(** [p] is a regular file the process may read. *)
Definition readable_file (fs : filesystem) (p : path) : bool :=
  match stat fs p with
  | Some (NFile f) => f_readable f
  | _ => false
  end.

(** The list [read_files] returns, as a function: what each child adds to
    [objects], gathered over the children. [None] is [OutOfFuel]. *)
Fixpoint gather (f : path -> option (list path)) (files : list path)
    : option (list path) :=
  match files with
  | [] => Some []
  | file :: rest =>
      match f file, gather f rest with
      | Some a, Some b => Some (a ++ b)
      | _, _ => None
      end
  end.

Definition contribution (fs : filesystem) (rec : bool)
    (sub : path -> option (list path)) (file : path) : option (list path) :=
  if is_file fs file then Some [file]
  else if is_dir fs file then (if rec then sub file else Some [])
  else Some [].

Fixpoint scan (fuel : nat) (fs : filesystem) (dir : path) (rec : bool)
    : option (list path) :=
  match fuel with
  | 0 => None
  | S fuel' =>
      gather (contribution fs rec (fun file => scan fuel' fs file rec))
             (children fs dir)
  end.

(** The outcome that stands for an optional value. *)
Definition of_option {A} (o : option A) : outcome A :=
  match o with
  | Some a => Ret a
  | None => OutOfFuel
  end.

(** The body of the loop of [read_files], the recursive call abstracted. *)
Definition read_files_body (fs : filesystem) (args : arguments) (rec : bool)
    (sub : path -> M (list path)) (objects : list path) (file : path)
    : M (list path) :=
  if is_file fs file then ret (objects ++ [file])
  else if is_dir fs file then
    if rec then (s <- sub file ;; ret (objects ++ s)) else ret objects
  else
    vprint args (path_str file +:+ " is neither file nor directory, ignoring") ;;;
    ret objects.

(** The directories below [p] nest at most [d] deep ([p] itself counted):
    what makes the names below [p] a finite tree. *)
Fixpoint bounded (d : nat) (fs : filesystem) (p : path) : bool :=
  match d with
  | 0 => negb (is_dir fs p)
  | S d' =>
      match stat fs p with
      | Some (NDir es) =>
          forallb (fun e => bounded d' fs (joinpath p (fst e))) es
      | _ => true
      end
  end.



(** No directory lists a name twice. *)
Definition names_unique (fs : filesystem) : Prop :=
  Forall (fun n => match n with
                   | NDir es => NoDup (map fst es)
                   | _ => True
                   end) fs.

#[global] Instance file_eq_dec : EqDecision file.
Proof. solve_decision. Defined.

#[global] Instance node_eq_dec : EqDecision node.
Proof. solve_decision. Defined.

#[global] Instance names_unique_dec fs : Decision (names_unique fs).
Proof.
  unfold names_unique. apply Forall_dec. intros [f|es|t|]; apply _.
Defined.

(** Two states of the file system that differ only in the order in which
    directories report their entries. *)
Definition node_equiv (n1 n2 : node) : Prop :=
  match n1, n2 with
  | NDir es1, NDir es2 => es1 ≡ₚ es2
  | _, _ => n1 = n2
  end.

Definition fs_equiv (fs1 fs2 : filesystem) : Prop := Forall2 node_equiv fs1 fs2.

#[global] Instance node_equiv_dec n1 n2 : Decision (node_equiv n1 n2).
Proof. destruct n1, n2; simpl; apply _. Defined.

#[global] Instance fs_equiv_dec fs1 fs2 : Decision (fs_equiv fs1 fs2).
Proof. unfold fs_equiv. apply _. Defined.

(** HTML escaping of text, as [html.escape] does it; the program never
    calls it. *)
Definition escape_char (c : ascii) : string :=
  if Ascii.eqb c "&"%char then "&amp;"
  else if Ascii.eqb c "<"%char then "&lt;"
  else if Ascii.eqb c ">"%char then "&gt;"
  else if Ascii.eqb c "034"%char then "&quot;"
  else if Ascii.eqb c "'"%char then "&#x27;"
  else String c EmptyString.

Fixpoint spec_html_escape (s : string) : string :=
  match s with
  | EmptyString => EmptyString
  | String c s' => escape_char c +:+ spec_html_escape s'
  end.

(** ** Sample file systems *)

Definition hello_world : string := "hello" +:+ nl +:+ "world".

(** [srv/] holds a text file, an image, a socket, a dangling link and a
    directory [sub/] with a video and a text file that is not UTF-8. *)
Definition fs_sample : filesystem :=
  [ NDir [("srv", 1)];
    NDir [("b.txt", 2); ("a.png", 3); ("sub", 4); ("sock", 5); ("dangling", 99)];
    NFile (File "text/plain" hello_world true);
    NFile (File "image/png" "PNG" true);
    NDir [("c.mp4", 6); ("bad.txt", 7)];
    NSpecial;
    NFile (File "video/mp4" "MP4" true);
    NFile (File "text/plain" (String "255"%char "x") true) ].

(** The same tree, its directories listed in another order. *)
Definition fs_sample_reordered : filesystem :=
  [ NDir [("srv", 1)];
    NDir [("sub", 4); ("dangling", 99); ("a.png", 3); ("sock", 5); ("b.txt", 2)];
    NFile (File "text/plain" hello_world true);
    NFile (File "image/png" "PNG" true);
    NDir [("bad.txt", 7); ("c.mp4", 6)];
    NSpecial;
    NFile (File "video/mp4" "MP4" true);
    NFile (File "text/plain" (String "255"%char "x") true) ].

(** [srv/] holds two regular files and nothing else. *)
Definition fs_flat : filesystem :=
  [ NDir [("srv", 1)];
    NDir [("b.txt", 2); ("a.png", 3)];
    NFile (File "text/plain" hello_world true);
    NFile (File "image/png" "PNG" true) ].

(** [srv/] holds a text file of markup. *)
Definition fs_markup : filesystem :=
  [ NDir [("srv", 1)];
    NDir [("x.txt", 2)];
    NFile (File "text/plain" "<b>bold</b>" true) ].

(** [srv/] holds a readable file and one the process may not open. *)
Definition fs_locked : filesystem :=
  [ NDir [("srv", 1)];
    NDir [("a.png", 2); ("secret.txt", 3)];
    NFile (File "image/png" "PNG" true);
    NFile (File "text/plain" "secret" false) ].

(** [srv/a/loop] is a symbolic link to [srv/]. *)
Definition fs_cycle : filesystem :=
  [ NDir [("srv", 1)];
    NDir [("a", 2); ("f.txt", 3)];
    NDir [("loop", 4)];
    NFile (File "text/plain" "x" true);
    NLink 1 ].




(** [srv/] is empty; [srv.txt] is a regular file. *)
Definition fs_empty : filesystem :=
  [ NDir [("srv", 1); ("srv.txt", 2)];
    NDir [];
    NFile (File "text/plain" "x" true) ].

(** ** Vocabulary of the further properties *)

(** [p] resolves to neither a regular file nor a directory: a special
    file, a dangling link, or nothing at all. *)
Definition is_other (fs : filesystem) (p : path) : bool :=
  negb (is_file fs p) && negb (is_dir fs p).

(** The line [read_files] prints for an entry it ignores. *)
Definition ignoring (p : path) : string :=
  path_str p +:+ " is neither file nor directory, ignoring".

(** Every byte of [s] is below 128. *)
Fixpoint is_ascii (s : string) : bool :=
  match s with
  | EmptyString => true
  | String c s' => (N_of_ascii c <? 128)%N && is_ascii s'
  end.

(** [c] occurs in [s]. *)
Fixpoint occurs (c : ascii) (s : string) : bool :=
  match s with
  | EmptyString => false
  | String c' s' => Ascii.eqb c c' || occurs c s'
  end.

(** * Properties *)

(** ** The order on paths *)

Lemma string_compare_refl (s : string) : String.compare s s = Eq.
Proof.
  induction s as [|c s IH]; simpl; [done|].
  unfold Ascii.compare. by rewrite N.compare_refl.
Qed.

Lemma string_eqb_refl (s : string) : String.eqb s s = true.
Proof. by apply String.eqb_eq. Qed.

Lemma string_ltb_le (a b : string) : String.ltb a b = true -> String.le a b.
Proof.
  unfold String.ltb, String.le, String.leb.
  destruct (String.compare a b); naive_solver.
Qed.

Lemma string_ltb_irrefl (a : string) : String.ltb a a = false.
Proof. unfold String.ltb. by rewrite string_compare_refl. Qed.

Lemma string_ltb_asym (a b : string) :
  String.ltb a b = true -> String.ltb b a = false.
Proof.
  unfold String.ltb. rewrite (String.compare_antisym b a).
  by destruct (String.compare a b).
Qed.

Lemma string_ltb_total (a b : string) :
  a <> b -> String.ltb a b = true \/ String.ltb b a = true.
Proof.
  intros Hne. unfold String.ltb. rewrite (String.compare_antisym b a).
  destruct (String.compare a b) eqn:E; simpl; auto.
  by apply String.compare_eq_iff in E.
Qed.

Lemma string_ltb_trans (a b c : string) :
  String.ltb a b = true -> String.ltb b c = true -> String.ltb a c = true.
Proof.
  intros Hab Hbc.
  destruct (decide (a = c)) as [->|Hne].
  { by rewrite (string_ltb_asym _ _ Hab) in Hbc. }
  destruct (string_ltb_total a c Hne) as [|Hca]; [done|].
  assert (String.le a c) as Hle.
  { etrans; by apply string_ltb_le. }
  apply string_ltb_le in Hca.
  destruct Hne. by apply (anti_symm String.le).
Qed.

#[global] Instance path_le_refl : Reflexive path_le.
Proof.
  intros p. unfold path_le. induction p as [|a p IH]; simpl; [done|].
  by rewrite string_eqb_refl.
Qed.

#[global] Instance path_le_trans : Transitive path_le.
Proof.
  unfold path_le. intros p.
  induction p as [|a p IH]; intros [|b q] [|c r]; simpl; try done.
  destruct (String.eqb a b) eqn:Eab.
  - apply String.eqb_eq in Eab as ->.
    destruct (String.eqb b c); eauto.
  - destruct (String.eqb b c) eqn:Ebc.
    + apply String.eqb_eq in Ebc as <-. by rewrite Eab.
    + intros Hab Hbc.
      pose proof (string_ltb_trans _ _ _ Hab Hbc) as Hac.
      destruct (String.eqb a c) eqn:Eac; [|done].
      apply String.eqb_eq in Eac as ->.
      by rewrite string_ltb_irrefl in Hac.
Qed.

#[global] Instance path_le_antisym : AntiSymm (=) path_le.
Proof.
  unfold path_le. intros p.
  induction p as [|a p IH]; intros [|b q]; simpl; try done.
  destruct (String.eqb a b) eqn:Eab.
  - apply String.eqb_eq in Eab as ->. rewrite string_eqb_refl.
    intros ??. f_equal. by apply IH.
  - intros Hab. rewrite (string_ltb_asym _ _ Hab).
    destruct (String.eqb b a) eqn:Eba; [|done].
    apply String.eqb_eq in Eba as ->. by rewrite string_eqb_refl in Eab.
Qed.

#[global] Instance path_le_total : Total path_le.
Proof.
  unfold path_le. intros p.
  induction p as [|a p IH]; intros [|b q]; simpl; auto.
  destruct (String.eqb a b) eqn:Eab.
  - apply String.eqb_eq in Eab as ->. rewrite string_eqb_refl. apply IH.
  - assert (String.eqb b a = false) as ->.
    { apply String.eqb_neq. apply String.eqb_neq in Eab. congruence. }
    apply string_ltb_total. by apply String.eqb_neq.
Qed.

Lemma sorted_Sorted (l : list path) : Sorted path_le (sorted l).
Proof. apply (Sorted_merge_sort path_le). Qed.

Lemma sorted_Permutation (l : list path) : sorted l ≡ₚ l.
Proof. apply (merge_sort_Permutation path_le). Qed.

(** The sorted list depends on the elements only, not on their order. *)
Lemma sorted_perm_eq (l1 l2 : list path) : l1 ≡ₚ l2 -> sorted l1 = sorted l2.
Proof.
  intros Hp. apply (Sorted_unique path_le); try apply sorted_Sorted.
  by rewrite !sorted_Permutation.
Qed.

(** ** Rendering one file *)

Lemma string_app_cons (x : ascii) (a b : string) :
  String x a +:+ b = String x (a +:+ b).
Proof. reflexivity. Qed.

Lemma string_app_assoc (a b c : string) : (a +:+ b) +:+ c = a +:+ (b +:+ c).
Proof.
  induction a as [|x a IH]; [done|]. by rewrite !string_app_cons, IH.
Qed.

Lemma string_app_empty_r (a : string) : a +:+ EmptyString = a.
Proof.
  induction a as [|x a IH]; [done|]. by rewrite string_app_cons, IH.
Qed.

Lemma py_in_text_plain_video : py_in "text/plain" VIDEO_MIME_TYPES = false.
Proof. reflexivity. Qed.

Lemma py_in_text_plain_image : py_in "text/plain" IMAGE_MIME_TYPES = false.
Proof. reflexivity. Qed.

Lemma card_link_only_nonempty link :
  exists c s, card_link_only link = String c s.
Proof. unfold card_link_only, card_open. simpl. eauto. Qed.

Lemma card_with_preview_nonempty link preview :
  exists c s, card_with_preview link preview = String c s.
Proof. unfold card_with_preview, card_open. simpl. eauto. Qed.

Lemma get_html_video_nonempty p t : truthy (Some (get_html_video p t)) = true.
Proof. reflexivity. Qed.

Lemma get_html_image_nonempty p : truthy (Some (get_html_image p)) = true.
Proof. reflexivity. Qed.

Lemma get_html_text_plain_nonempty t :
  truthy (Some (get_html_text_plain t)) = true.
Proof. reflexivity. Qed.

Lemma bind_ret_l {A B} (a : A) (k : A -> M B) : bind (ret a) k = k a.
Proof. unfold bind, ret. by destruct (k a). Qed.

Lemma bind_raise {A B} (e : exn) (k : A -> M B) : bind (raise e) k = raise e.
Proof. reflexivity. Qed.

Lemma bind_ret_r {A} (m : M A) : bind m ret = m.
Proof.
  destruct m as [out [a|e|]]; unfold bind, ret; simpl; by rewrite ?app_nil_r.
Qed.

Lemma bind_assoc {A B C} (m : M A) (k : A -> M B) (h : B -> M C) :
  bind (bind m k) h = bind m (fun a => bind (k a) h).
Proof.
  destruct m as [out [a|e|]]; simpl; try done.
  destruct (k a) as [out' [b|e|]]; simpl; try done.
  destruct (h b) as [out'' r]. by rewrite app_assoc.
Qed.

(** What [render] does once the detected type is known. *)
Lemma render_unfold fs args p rel f :
  stat fs p = Some (NFile f) ->
  f_readable f = true ->
  relative_to p (scan_dir args) = Some rel ->
  render fs args p =
    (preview <- make_preview fs args (mkWebFile p rel None None) (f_mime f) ;;
     ret (if truthy preview
          then card_with_preview (get_html_link (path_str rel) (f_mime f))
                                 (default EmptyString preview)
          else card_link_only (get_html_link (path_str rel) (f_mime f)))).
Proof.
  intros Hstat Hread Hrel.
  unfold render, WebFile_init. rewrite Hrel, bind_ret_l.
  unfold generate_html, from_file. simpl. rewrite Hstat, Hread, bind_ret_l.
  destruct (make_preview _ _ _ _) as [out [preview|e|]]; simpl; try done.
  rewrite !app_nil_r. do 2 f_equal.
  destruct (truthy preview); reflexivity.
Qed.

(** A file that cannot be opened aborts its rendering. *)
Lemma render_unreadable fs args p rel f :
  stat fs p = Some (NFile f) ->
  f_readable f = false ->
  relative_to p (scan_dir args) = Some rel ->
  render fs args p = ([], Raise (PermissionError p)).
Proof.
  intros Hstat Hread Hrel.
  unfold render, WebFile_init. rewrite Hrel, bind_ret_l.
  unfold generate_html, from_file. simpl. by rewrite Hstat, Hread.
Qed.






(** C3, as the code has it: a file detected as text/plain whose bytes are
    valid UTF-8 gets a preview block that holds the decoded text (a carriage
    return read as a line feed), embedded as it is, with no HTML escaping. *)
Theorem text_preview_verbatim fs args p rel f :
  stat fs p = Some (NFile f) ->
  f_readable f = true ->
  relative_to p (scan_dir args) = Some rel ->
  f_mime f = "text/plain" ->
  utf8_valid (f_content f) = true ->
  render fs args p =
    ([], Ret (card_with_preview
                (get_html_link (path_str rel) "text/plain")
                ("<div class=" +:+ dq +:+ "scroll-box" +:+ dq +:+ ">"
                 +:+ universal_newlines (f_content f) +:+ "</div>"))).
Proof.
  intros Hstat Hread Hrel Ht Hutf.
  rewrite (render_unfold _ _ _ _ _ Hstat Hread Hrel), Ht.
  unfold make_preview, read_text. simpl. by rewrite Hstat, Hread, Hutf.
Qed.

(** The text "hello\nworld" is previewed as that very string. *)
Lemma text_preview_verbatim_witness :
  render fs_sample (Args ["srv"] true false) ["srv"; "b.txt"] =
    ([], Ret (card_with_preview
                (get_html_link "b.txt" "text/plain")
                ("<div class=" +:+ dq +:+ "scroll-box" +:+ dq +:+ ">"
                 +:+ hello_world +:+ "</div>"))).
Proof.
  apply (text_preview_verbatim fs_sample (Args ["srv"] true false)
           ["srv"; "b.txt"] ["b.txt"] (File "text/plain" hello_world true));
    reflexivity.
Defined.

(** C3, as stated, fails: the text of a file of markup is not escaped. *)
Lemma text_preview_not_escaped :
  ~ (forall fs args p rel f,
       stat fs p = Some (NFile f) ->
       f_readable f = true ->
       relative_to p (scan_dir args) = Some rel ->
       f_mime f = "text/plain" ->
       utf8_valid (f_content f) = true ->
       render fs args p =
         ([], Ret (card_with_preview
                     (get_html_link (path_str rel) "text/plain")
                     (get_html_text_plain
                        (spec_html_escape (f_content f)))))).
Proof.
  intros H.
  specialize (H fs_markup (Args ["srv"] false false) ["srv"; "x.txt"] ["x.txt"]
                (File "text/plain" "<b>bold</b>" true)
                eq_refl eq_refl eq_refl eq_refl eq_refl).
  vm_compute in H. discriminate H.
Qed.

(** C6, as the code has it: a file detected as text/plain whose bytes are
    not valid UTF-8 is rendered without an exception, as a card with the
    link and the type label and no preview; the diagnostic is printed when
    the verbose flag is set, and nothing is printed otherwise. *)
Theorem undecodable_text_no_preview fs args p rel f :
  stat fs p = Some (NFile f) ->
  f_readable f = true ->
  relative_to p (scan_dir args) = Some rel ->
  f_mime f = "text/plain" ->
  utf8_valid (f_content f) = false ->
  render fs args p =
    (if verbose args then ["Failed to decode " +:+ path_str p] else [],
     Ret (card_link_only (get_html_link (path_str rel) "text/plain"))).
Proof.
  intros Hstat Hread Hrel Ht Hutf.
  rewrite (render_unfold _ _ _ _ _ Hstat Hread Hrel), Ht.
  unfold make_preview, read_text, vprint. simpl.
  rewrite Hstat, Hread, Hutf. by destruct (verbose args).
Qed.

Lemma undecodable_text_no_preview_witness :
  render fs_sample (Args ["srv"] true true) ["srv"; "sub"; "bad.txt"] =
    (["Failed to decode srv/sub/bad.txt"],
     Ret (card_link_only (get_html_link "sub/bad.txt" "text/plain"))).
Proof.
  apply (undecodable_text_no_preview fs_sample (Args ["srv"] true true)
           ["srv"; "sub"; "bad.txt"] ["sub"; "bad.txt"]
           (File "text/plain" (String "255"%char "x") true)); reflexivity.
Defined.

(** C6, as stated, fails: without the verbose flag no diagnostic is
    recorded. *)
Lemma undecodable_text_silent :
  ~ (forall fs args p rel f,
       stat fs p = Some (NFile f) ->
       f_readable f = true ->
       relative_to p (scan_dir args) = Some rel ->
       f_mime f = "text/plain" ->
       utf8_valid (f_content f) = false ->
       result (render fs args p) =
         Ret (card_link_only (get_html_link (path_str rel) "text/plain"))
       /\ stdout (render fs args p) <> []).
Proof.
  intros H.
  destruct (H fs_sample (Args ["srv"] true false) ["srv"; "sub"; "bad.txt"]
              ["sub"; "bad.txt"]
              (File "text/plain" (String "255"%char "x") true)
              eq_refl eq_refl eq_refl eq_refl eq_refl) as [_ Hout].
  by apply Hout.
Qed.

(** ** Path resolution *)




Lemma lookup_entry_Some name es j :
  lookup_entry name es = Some j -> (name, j) ∈ es.
Proof.
  induction es as [|[n i] es IH]; simpl; [done|].
  destruct (String.eqb n name) eqn:E.
  - apply String.eqb_eq in E. intros [= ->]. subst. left.
  - intros H. right. by apply IH.
Qed.

Lemma lookup_entry_is_Some name es :
  name ∈ map fst es -> is_Some (lookup_entry name es).
Proof.
  induction es as [|[n i] es IH]; simpl.
  - by intros ?%elem_of_nil.
  - destruct (String.eqb n name) eqn:E; [eauto|].
    intros [->|H]%elem_of_cons; [|by apply IH].
    by rewrite string_eqb_refl in E.
Qed.

Lemma lookup_entry_NoDup name es j :
  NoDup (map fst es) -> (name, j) ∈ es -> lookup_entry name es = Some j.
Proof.
  induction es as [|[n i] es IH]; simpl.
  - by intros _ ?%elem_of_nil.
  - intros [Hn Hnd]%NoDup_cons [[= -> ->]|Hin]%elem_of_cons.
    + by rewrite string_eqb_refl.
    + destruct (String.eqb n name) eqn:E; [|by apply IH].
      apply String.eqb_eq in E. subst n. destruct Hn.
      apply list_elem_of_fmap. by exists (name, j).
Qed.

Lemma lookup_entry_perm name es1 es2 :
  NoDup (map fst es1) -> es1 ≡ₚ es2 ->
  lookup_entry name es1 = lookup_entry name es2.
Proof.
  intros Hnd Hp.
  assert (NoDup (map fst es2)) as Hnd2 by (by rewrite <- Hp).
  destruct (lookup_entry name es1) as [j|] eqn:E1.
  - symmetry. apply lookup_entry_NoDup; [done|].
    rewrite <- Hp. by apply lookup_entry_Some.
  - destruct (lookup_entry name es2) as [j|] eqn:E2; [|done].
    apply lookup_entry_Some in E2. rewrite <- Hp in E2.
    apply (lookup_entry_NoDup _ _ _ Hnd) in E2. congruence.
Qed.

Lemma elem_of_children fs dir p :
  p ∈ children fs dir <->
  exists es name j, stat fs dir = Some (NDir es) /\ (name, j) ∈ es
                    /\ p = joinpath dir name.
Proof.
  unfold children. split.
  - destruct (stat fs dir) as [[f|es|t|]|]; try by intros ?%elem_of_nil.
    intros ([name j] & -> & Hin)%list_elem_of_fmap. by exists es, name, j.
  - intros (es & name & j & -> & Hin & ->).
    apply list_elem_of_fmap. by exists (name, j).
Qed.


Lemma is_file_not_dir fs p : is_file fs p = true -> is_dir fs p = false.
Proof. unfold is_file, is_dir. by destruct (stat fs p) as [[f|es|t|]|]. Qed.

(** ** [read_files] as a function *)

Lemma result_bind {A B} (m : M A) (k : A -> M B) :
  result (bind m k) =
    match result m with
    | Ret a => result (k a)
    | Raise e => Raise e
    | OutOfFuel => OutOfFuel
    end.
Proof.
  destruct m as [out [a|e|]]; simpl; try done. by destruct (k a).
Qed.

Section read_files_scan.
Context (fs : filesystem) (args : arguments) (rec : bool).

#[local] Abbreviation body := (read_files_body fs args rec).

Lemma read_files_loop sub psub files objects :
  (forall file, file ∈ files -> is_dir fs file = true ->
                result (sub file) = of_option (psub file)) ->
  result (for_each files objects (body sub)) =
    of_option (app objects <$> gather (contribution fs rec psub) files).
Proof.
  revert objects. induction files as [|file files IH]; intros objects Hsub.
  { simpl. by rewrite app_nil_r. }
  simpl. rewrite result_bind. unfold contribution at 1, body at 1.
  assert (forall o, result (for_each files o (body sub)) =
            of_option (app o <$> gather (contribution fs rec psub) files))
    as IH'.
  { intros o. apply IH. intros f Hf. apply Hsub. by right. }
  destruct (is_file fs file).
  { simpl. rewrite IH'.
    destruct (gather _ files); simpl; [|done]. by rewrite <- app_assoc. }
  destruct (is_dir fs file) eqn:Hd.
  - destruct rec.
    + rewrite result_bind, (Hsub file); [|left|done].
      destruct (psub file) as [s|]; simpl; [|done].
      rewrite IH'. destruct (gather _ files); simpl; [|done].
      by rewrite app_assoc.
    + simpl. rewrite IH'. by destruct (gather _ files).
  - rewrite result_bind. unfold vprint.
    destruct (negb (verbose args)); simpl; rewrite IH';
      by destruct (gather _ files).
Qed.

Lemma read_files_scan fuel dir :
  is_dir fs dir = true ->
  result (read_files fuel fs args dir rec) = of_option (scan fuel fs dir rec).
Proof.
  revert dir. induction fuel as [|fuel IH]; intros dir Hdir; [done|].
  simpl. rewrite Hdir. simpl. rewrite result_bind.
  unfold iterdir, children. unfold is_dir in Hdir.
  destruct (stat fs dir) as [[f|es|t|]|]; try done. simpl.
  change (result (for_each (map (fun e => joinpath dir e.1) es) []
                    (body (fun file => read_files fuel fs args file rec))) =
          of_option (gather (contribution fs rec
                               (fun file => scan fuel fs file rec))
                       (map (fun e => joinpath dir e.1) es))).
  rewrite (read_files_loop _ (fun file => scan fuel fs file rec)).
  - by destruct (gather _ _).
  - intros file _ Hd. by apply IH.
Qed.
End read_files_scan.

(** ** What the scan returns *)

Lemma gather_elem_of f files l p :
  gather f files = Some l ->
  p ∈ l <-> exists file a, file ∈ files /\ f file = Some a /\ p ∈ a.
Proof.
  revert l. induction files as [|file files IH]; intros l; simpl.
  - intros [= <-]. split; [by intros ?%elem_of_nil|].
    by intros (? & ? & ?%elem_of_nil & _).
  - destruct (f file) as [a|] eqn:Ef; [|done].
    destruct (gather f files) as [b|]; [|done]. intros [= <-].
    rewrite elem_of_app, (IH b eq_refl). split.
    + intros [Ha|(file' & a' & Hin & Hf & Hp)].
      * exists file, a. split_and!; [left|done|done].
      * exists file', a'. split_and!; [by right|done|done].
    + intros (file' & a' & [->|Hin]%elem_of_cons & Hf & Hp).
      * left. congruence.
      * right. by exists file', a'.
Qed.

Lemma gather_is_Some f files :
  is_Some (gather f files) <-> forall file, file ∈ files -> is_Some (f file).
Proof.
  induction files as [|file files IH]; simpl.
  - split; [by intros _ ? ?%elem_of_nil|eauto].
  - split.
    + destruct (f file) as [a|] eqn:Ef; [|by intros [? [=]]].
      destruct (gather f files) as [b|]; [|by intros [? [=]]].
      intros _ file' [->|Hin]%elem_of_cons; [by rewrite Ef|].
      apply IH; eauto.
    + intros H. destruct (H file) as [a ->]; [left|].
      destruct (proj2 IH) as [b ->]; [|eauto].
      intros file' Hin. apply H. by right.
Qed.


Lemma contribution_nonrec fs sub file :
  contribution fs false sub file = Some (if is_file fs file then [file] else []).
Proof. unfold contribution. by repeat case_match. Qed.

Lemma gather_nonrec fs sub files :
  gather (contribution fs false sub) files = Some (filter (fun p => is_file fs p = true) files).
Proof.
  induction files as [|file files IH]; simpl; [done|].
  rewrite contribution_nonrec, IH. rewrite filter_cons.
  destruct (is_file fs file); by case_decide.
Qed.

(** Without recursion the scan lists the regular files among the
    children, in the order of the directory. *)
Lemma scan_nonrec fuel fs dir :
  scan (S fuel) fs dir false =
    Some (filter (fun p => is_file fs p = true) (children fs dir)).
Proof. simpl. apply gather_nonrec. Qed.

Lemma joinpath_app dir name rest :
  dir ++ name :: rest = joinpath dir name ++ rest.
Proof. unfold joinpath. by rewrite <- app_assoc. Qed.

(** Every path of the scan is a regular file strictly below the
    directory. *)
Lemma scan_sound fuel fs dir rec l p :
  scan fuel fs dir rec = Some l -> p ∈ l ->
  is_file fs p = true /\ exists name rest, p = dir ++ name :: rest.
Proof.
  revert dir l p. induction fuel as [|fuel IH]; intros dir l p; [done|].
  simpl. intros Hg Hp.
  apply (gather_elem_of _ _ _ p Hg) in Hp as (file & a & Hin & Hc & Hpa).
  apply elem_of_children in Hin as (es & name & j & _ & _ & ->).
  unfold contribution in Hc.
  destruct (is_file fs (joinpath dir name)) eqn:Hf.
  - injection Hc as <-. apply list_elem_of_singleton in Hpa as ->.
    split; [done|]. by exists name, [].
  - destruct (is_dir fs (joinpath dir name)), rec;
      try (injection Hc as <-; by apply elem_of_nil in Hpa).
    destruct (IH _ _ _ Hc Hpa) as [Hfile (n & rest & ->)].
    split; [done|]. exists name, (n :: rest). by rewrite <- joinpath_app.
Qed.


(** ** No duplicates *)


#[global] Instance joinpath_inj dir : Inj (=) (=) (joinpath dir).
Proof.
  intros n1 n2 H. unfold joinpath in H. by apply app_inv_head in H as [= ->].
Qed.




(** ** Finite depth and termination *)

Lemma bounded_not_dir d fs p : is_dir fs p = false -> bounded d fs p = true.
Proof.
  unfold is_dir. destruct d; simpl.
  - unfold is_dir. by intros ->.
  - by destruct (stat fs p) as [[f|es|t|]|].
Qed.


Lemma scan_bounded fuel fs dir :
  is_Some (scan fuel fs dir true) -> bounded fuel fs dir = true.
Proof.
  revert dir. induction fuel as [|fuel IH]; intros dir; [by intros [? [=]]|].
  simpl. intros Hg.
  destruct (stat fs dir) as [[f|es|t|]|] eqn:Hstat; try done.
  apply forallb_forall. intros [name j] Hin%list_elem_of_In. simpl.
  assert (is_Some (contribution fs true (fun f => scan fuel fs f true)
                     (joinpath dir name))) as Hc.
  { apply (proj1 (gather_is_Some _ (children fs dir))); [done|].
    apply elem_of_children. by exists es, name, j. }
  unfold contribution in Hc.
  destruct (is_dir fs (joinpath dir name)) eqn:Hd;
    [|by apply bounded_not_dir].
  destruct (is_file fs (joinpath dir name)) eqn:Hf.
  { apply is_file_not_dir in Hf. congruence. }
  by apply IH.
Qed.


(** ** The limit on symbolic links bounds the recursion *)







(** ** Chains of directories *)















(** ** The scanner *)








(** The scan of [srv/], where [srv/a/loop] leads back to [srv/], returns
    [f.txt] once for every number of turns from none to [MAXSYMLINKS]. *)
Lemma fs_cycle_scan_paths :
  match result (read_files 123 fs_cycle (Args ["srv"] true false)
                  ["srv"] true) with
  | Ret l => length l = 41 /\ NoDup l
  | _ => False
  end.
Proof.
  vm_compute read_files. split; [reflexivity|].
  apply (bool_decide_unpack _). by vm_compute.
Qed.


(** C8: when the path to scan does not exist or is not a directory, the
    scan raises the not-a-directory error ([TypeError]) at once, nothing
    printed and no entry produced; raised for the root, it aborts the build
    of the page. *)
Theorem not_a_directory_aborts fs args fuel :
  (forall dir rec,
     is_dir fs dir = false ->
     read_files (S fuel) fs args dir rec =
       ([], Raise (TypeError (path_str dir +:+ " is not a directory"))))
  /\ (is_dir fs (scan_dir args) = false ->
      index (S fuel) fs args =
        ([], Raise (TypeError (path_str (scan_dir args)
                               +:+ " is not a directory")))).
Proof.
  assert (forall dir rec,
            is_dir fs dir = false ->
            read_files (S fuel) fs args dir rec =
              ([], Raise (TypeError (path_str dir +:+ " is not a directory"))))
    as H.
  { intros dir rec Hd. simpl. by rewrite Hd. }
  split; [done|]. intros Hd. unfold index. by rewrite (H _ _ Hd).
Qed.

(** A regular file as root, then a path that does not exist. *)
Lemma not_a_directory_aborts_witness :
  index 1 fs_empty (Args ["srv.txt"] false false) =
    ([], Raise (TypeError "srv.txt is not a directory"))
  /\ index 1 fs_empty (Args ["nowhere"] true false) =
    ([], Raise (TypeError "nowhere is not a directory")).
Proof.
  split.
  - apply (proj2 (not_a_directory_aborts fs_empty
                    (Args ["srv.txt"] false false) 0)). reflexivity.
  - apply (proj2 (not_a_directory_aborts fs_empty
                    (Args ["nowhere"] true false) 0)). reflexivity.
Defined.



(** ** The page *)

Lemma render_card fs args p rel f :
  stat fs p = Some (NFile f) ->
  f_readable f = true ->
  relative_to p (scan_dir args) = Some rel ->
  result (render fs args p) = Ret (card_of rel f).
Proof.
  intros Hstat Hread Hrel.
  rewrite (render_unfold _ _ _ _ _ Hstat Hread Hrel).
  unfold card_of, preview_of, make_preview.
  destruct (String.eqb (f_mime f) "text/plain").
  { unfold read_text. cbn [file_path]. rewrite Hstat, Hread.
    destruct (utf8_valid (f_content f)); [reflexivity|].
    unfold vprint. destruct (verbose args); reflexivity. }
  destruct (py_in (f_mime f) VIDEO_MIME_TYPES); [reflexivity|].
  destruct (py_in (f_mime f) IMAGE_MIME_TYPES); reflexivity.
Qed.

Lemma index_body_render fs args h fil :
  index_body fs args h fil = (c <- render fs args fil ;; ret (h +:+ c)).
Proof.
  unfold index_body, render.
  destruct (WebFile_init args fil) as [out [wf|e|]]; simpl; try done.
  destruct (generate_html fs args wf) as [out' [wf'|e|]]; simpl; try done.
  by rewrite !app_nil_r.
Qed.

Lemma relative_to_app dir rest : relative_to (dir ++ rest) dir = Some rest.
Proof.
  induction dir as [|a dir IH]; simpl; [done|]. by rewrite string_eqb_refl.
Qed.

Lemma read_files_Ret_is_dir fuel fs args dir rec l :
  result (read_files fuel fs args dir rec) = Ret l -> is_dir fs dir = true.
Proof.
  destruct fuel as [|fuel]; [done|]. simpl.
  by destruct (is_dir fs dir).
Qed.

(** What [read_files] returns are regular files below the directory. *)
Lemma read_files_sound fuel fs args dir rec l p :
  result (read_files fuel fs args dir rec) = Ret l -> p ∈ l ->
  is_file fs p = true /\ exists name rest, p = dir ++ name :: rest.
Proof.
  intros Hr Hp. pose proof (read_files_Ret_is_dir _ _ _ _ _ _ Hr) as Hd.
  rewrite (read_files_scan _ _ _ _ _ Hd) in Hr.
  destruct (scan fuel fs dir rec) as [l'|] eqn:E; [|done].
  injection Hr as ->. by apply (scan_sound _ _ _ _ _ _ E).
Qed.

Lemma readable_file_forallb_perm fs (l1 l2 : list path) :
  l1 ≡ₚ l2 ->
  forallb (readable_file fs) l1 = forallb (readable_file fs) l2.
Proof.
  intros Hp. induction Hp as [|x l1 l2 _ IH|x y l|l1 l2 l3 _ IH1 _ IH2];
    simpl; [done|by rewrite IH| |congruence].
  by destruct (readable_file fs x), (readable_file fs y).
Qed.

(** The loop of [index]: a card is appended for every file, up to the first
    file that cannot be opened. *)
Lemma index_loop fs args files h :
  Forall (fun p => is_file fs p = true
                   /\ is_Some (relative_to p (scan_dir args))) files ->
  if forallb (readable_file fs) files
  then exists cards,
      result (for_each files h (index_body fs args))
        = Ret (h +:+ foldr String.append EmptyString cards)
      /\ Forall2 (is_card_of fs args) files cards
  else exists p,
      p ∈ files /\ readable_file fs p = false
      /\ result (for_each files h (index_body fs args))
           = Raise (PermissionError p).
Proof.
  intros Hall. revert h.
  induction Hall as [|p files [Hf [rel Hrel]] _ IH]; intros h; simpl.
  { exists []. split; [|constructor]. by rewrite string_app_empty_r. }
  unfold is_file in Hf.
  destruct (stat fs p) as [[f| | |]|] eqn:Hstat; try done.
  rewrite result_bind, index_body_render, result_bind.
  unfold readable_file at 1. rewrite Hstat.
  destruct (f_readable f) eqn:Hread; simpl.
  - rewrite (render_card _ _ _ _ _ Hstat Hread Hrel). simpl.
    specialize (IH (h +:+ card_of rel f)).
    destruct (forallb (readable_file fs) files).
    + destruct IH as (cards & Hres & Hcards).
      exists (card_of rel f :: cards). split.
      * rewrite Hres. simpl. by rewrite string_app_assoc.
      * constructor; [|done]. by exists f, rel.
    + destruct IH as (q & Hq & Hnr & Hres).
      exists q. split_and!; [by right|done|done].
  - exists p. split_and!; [left| |].
    + unfold readable_file. by rewrite Hstat.
    + by rewrite (render_unreadable _ _ _ _ _ Hstat Hread Hrel).
Qed.

(** The page for the files the scan returned. *)
Lemma index_spec fs args fuel files :
  result (read_files fuel fs args (scan_dir args) (recursive args))
    = Ret files ->
  if forallb (readable_file fs) files
  then exists cards,
      result (index fuel fs args) = Ret (page_of cards)
      /\ Forall2 (is_card_of fs args) (sorted files) cards
  else exists p,
      p ∈ files /\ readable_file fs p = false
      /\ result (index fuel fs args) = Raise (PermissionError p).
Proof.
  intros Hr.
  assert (Forall (fun p => is_file fs p = true
                           /\ is_Some (relative_to p (scan_dir args)))
            (sorted files)) as Hall.
  { apply Forall_forall. intros p Hp. rewrite sorted_Permutation in Hp.
    destruct (read_files_sound _ _ _ _ _ _ _ Hr Hp)
      as [Hf (name & rest & ->)].
    split; [done|]. rewrite relative_to_app. eauto. }
  pose proof (index_loop fs args (sorted files) HTML_HEAD Hall) as Hloop.
  rewrite (readable_file_forallb_perm fs _ _ (sorted_Permutation files))
    in Hloop.
  unfold index. rewrite result_bind, Hr, result_bind.
  change (fun h fil => wf <- WebFile_init args fil ;;
                       wf0 <- generate_html fs args wf ;;
                       ret (h +:+ get_html wf0))
    with (index_body fs args).
  destruct (forallb (readable_file fs) files).
  - destruct Hloop as (cards & -> & Hcards). exists cards. split; [|done].
    simpl. unfold page_of. by rewrite string_app_assoc.
  - destruct Hloop as (p & Hp & Hnr & ->). exists p.
    split_and!; [|done|done]. by rewrite <- (sorted_Permutation files).
Qed.

(** ** The order of the directory entries does not matter *)

Section listing_order.
Context (fs1 fs2 : filesystem).
Hypothesis Hequiv : fs_equiv fs1 fs2.
Hypothesis Hunique : names_unique fs1.

Lemma fs_equiv_lookup i : option_Forall2 node_equiv (fs1 !! i) (fs2 !! i).
Proof. by apply Forall2_lookup. Qed.

Lemma follow_equiv b j : follow fs1 b j = follow fs2 b j.
Proof.
  revert j. induction b as [|b IH]; intros j; simpl;
    unfold filesystem, inode in *.
  - destruct (fs1 !! j) as [n|] eqn:E1.
    + destruct (Forall2_lookup_l _ _ _ _ _ Hequiv E1) as (n' & -> & Hn).
      destruct n as [f|es|t|], n' as [f'|es'|t'|]; simpl in Hn; done.
    + destruct (fs2 !! j) as [n'|] eqn:E2; [|done].
      destruct (Forall2_lookup_r _ _ _ _ _ Hequiv E2) as (n & E & _).
      congruence.
  - destruct (fs1 !! j) as [n|] eqn:E1.
    + destruct (Forall2_lookup_l _ _ _ _ _ Hequiv E1) as (n' & -> & Hn).
      destruct n as [f|es|t|], n' as [f'|es'|t'|]; simpl in Hn; try done.
      injection Hn as ->. apply IH.
    + destruct (fs2 !! j) as [n'|] eqn:E2; [|done].
      destruct (Forall2_lookup_r _ _ _ _ _ Hequiv E2) as (n & E & _).
      congruence.
Qed.

Lemma resolve_from_equiv b i p :
  resolve_from fs1 b i p = resolve_from fs2 b i p.
Proof.
  revert b i. induction p as [|name p IH]; intros b i; [done|].
  cbn [resolve_from]. unfold filesystem, inode in *.
  destruct (fs1 !! i) as [n|] eqn:E1.
  - destruct (Forall2_lookup_l _ _ _ _ _ Hequiv E1) as (n' & -> & Hn).
    destruct n as [f|es|t|], n' as [f'|es'|t'|]; simpl in Hn; try done.
    assert (NoDup (map fst es)) as Hnd.
    { unfold names_unique in Hunique. rewrite Forall_forall in Hunique.
      apply (Hunique (NDir es)). by eapply list_elem_of_lookup_2. }
    rewrite (lookup_entry_perm name es es' Hnd Hn).
    destruct (lookup_entry name es') as [j|]; [|done].
    rewrite <- (follow_equiv b j).
    destruct (follow fs1 b j) as [[j' b']|]; [apply IH|done].
  - destruct (fs2 !! i) as [n'|] eqn:E2; [|done].
    destruct (Forall2_lookup_r _ _ _ _ _ Hequiv E2) as (n & E & _).
    congruence.
Qed.

Lemma stat_equiv p : option_Forall2 node_equiv (stat fs1 p) (stat fs2 p).
Proof.
  unfold stat. rewrite resolve_from_equiv.
  destruct (resolve_from fs2 MAXSYMLINKS 0 p) as [[i b]|];
    [apply fs_equiv_lookup|constructor].
Qed.

Lemma is_file_equiv p : is_file fs1 p = is_file fs2 p.
Proof.
  unfold is_file. destruct (stat_equiv p) as [n1 n2 Hn|]; [|done].
  by destruct n1, n2.
Qed.

Lemma is_dir_equiv p : is_dir fs1 p = is_dir fs2 p.
Proof.
  unfold is_dir. destruct (stat_equiv p) as [n1 n2 Hn|]; [|done].
  by destruct n1, n2.
Qed.

Lemma from_file_equiv p : from_file fs1 p = from_file fs2 p.
Proof.
  unfold from_file. destruct (stat_equiv p) as [n1 n2 Hn|]; [|done].
  destruct n1, n2; simpl in Hn; try done. by injection Hn as ->.
Qed.

Lemma read_text_equiv p : read_text fs1 p = read_text fs2 p.
Proof.
  unfold read_text. destruct (stat_equiv p) as [n1 n2 Hn|]; [|done].
  destruct n1, n2; simpl in Hn; try done. by injection Hn as ->.
Qed.

Lemma children_equiv dir : children fs1 dir ≡ₚ children fs2 dir.
Proof.
  unfold children. destruct (stat_equiv dir) as [n1 n2 Hn|]; [|done].
  destruct n1, n2; simpl in Hn; try done.
  by apply (fmap_Permutation (fun e => joinpath dir e.1)).
Qed.

Lemma generate_html_equiv args wf :
  generate_html fs1 args wf = generate_html fs2 args wf.
Proof.
  unfold generate_html. rewrite from_file_equiv.
  destruct (from_file fs2 (file_path wf)) as [out [t|e|]]; simpl; try done.
  unfold make_preview. by rewrite read_text_equiv.
Qed.

Lemma index_body_equiv args h fil :
  index_body fs1 args h fil = index_body fs2 args h fil.
Proof.
  unfold index_body.
  destruct (WebFile_init args fil) as [out [wf|e|]]; simpl; try done.
  by rewrite generate_html_equiv.
Qed.

Lemma gather_perm f (l1 l2 : list path) :
  l1 ≡ₚ l2 -> option_Forall2 (≡ₚ) (gather f l1) (gather f l2).
Proof.
  intros Hp. induction Hp as [|x l1 l2 _ IH|x y l|l1 l2 l3 _ IH1 _ IH2]; simpl.
  - by constructor.
  - destruct (f x) as [a|].
    + destruct IH as [b1 b2 Hb|]; constructor. by rewrite Hb.
    + destruct (gather f l1), (gather f l2); constructor.
  - destruct (f x) as [a|], (f y) as [b|], (gather f l) as [c|];
      constructor.
    rewrite !app_assoc. by rewrite (Permutation_app_comm b a).
  - destruct IH1 as [a b Hab|]; inversion IH2; subst; constructor.
    by etrans.
Qed.

Lemma gather_ext_perm f g (l : list path) :
  (forall file, option_Forall2 (≡ₚ) (f file) (g file)) ->
  option_Forall2 (≡ₚ) (gather f l) (gather g l).
Proof.
  intros Hfg. induction l as [|x l IH]; simpl; [by constructor|].
  destruct (Hfg x) as [a b Hab|].
  - destruct IH as [c d Hcd|]; constructor. by rewrite Hab, Hcd.
  - destruct (gather f l), (gather g l); constructor.
Qed.

Lemma opt_perm_trans (o1 o2 o3 : option (list path)) :
  option_Forall2 (≡ₚ) o1 o2 -> option_Forall2 (≡ₚ) o2 o3 ->
  option_Forall2 (≡ₚ) o1 o3.
Proof.
  intros [a b Hab|] H; inversion H; subst; constructor. by etrans.
Qed.

Lemma scan_equiv fuel dir rec :
  option_Forall2 (≡ₚ) (scan fuel fs1 dir rec) (scan fuel fs2 dir rec).
Proof.
  revert dir. induction fuel as [|fuel IH]; intros dir; simpl;
    [constructor|].
  eapply opt_perm_trans; [apply gather_perm, children_equiv|].
  apply gather_ext_perm. intros file. unfold contribution.
  rewrite is_file_equiv, is_dir_equiv.
  destruct (is_file fs2 file); [by constructor|].
  destruct (is_dir fs2 file); [|by constructor].
  destruct rec; [apply IH|by constructor].
Qed.

End listing_order.

(** ** The page: the claims *)


Lemma index_unfold fuel fs args :
  index fuel fs args =
    (file_store <- read_files fuel fs args (scan_dir args) (recursive args) ;;
     h <- for_each (sorted file_store) HTML_HEAD (index_body fs args) ;;
     ret (h +:+ HTML_FOOT)).
Proof. reflexivity. Qed.

Lemma for_each_ext {A B} (xs : list A) (acc : B) (body1 body2 : B -> A -> M B) :
  (forall b x, body1 b x = body2 b x) ->
  for_each xs acc body1 = for_each xs acc body2.
Proof.
  intros Hb. revert acc. induction xs as [|x xs IH]; intros acc; simpl; [done|].
  rewrite Hb. destruct (body2 acc x) as [out [b|e|]]; simpl; try done.
  by rewrite IH.
Qed.




(** C4, as the code has it: an error that is not caught aborts the whole
    build. Whatever the scan raises leaves [index] as it is, the
    not-a-directory error of the root among it, and so does the error of a
    scanned file that cannot be opened. When the scan returns and every file
    it returned can be opened, the page is built, one card per file, each
    card made from that file alone; a text/plain file that is not valid
    UTF-8 then loses its preview and nothing else. *)
Theorem build_abort_policy fs args fuel :
  (is_dir fs (scan_dir args) = false ->
   exists msg, result (index (S fuel) fs args) = Raise (TypeError msg))
  /\ match result (read_files fuel fs args (scan_dir args) (recursive args))
     with
     | Ret files =>
         if forallb (readable_file fs) files
         then exists cards,
             result (index fuel fs args) = Ret (page_of cards)
             /\ Forall2 (is_card_of fs args) (sorted files) cards
         else exists p,
             p ∈ files /\ readable_file fs p = false
             /\ result (index fuel fs args) = Raise (PermissionError p)
     | Raise e => result (index fuel fs args) = Raise e
     | OutOfFuel => result (index fuel fs args) = OutOfFuel
     end
  /\ (forall rel f,
        f_mime f = "text/plain" -> utf8_valid (f_content f) = false ->
        card_of rel f =
          card_link_only (get_html_link (path_str rel) "text/plain")).
Proof.
  split_and!.
  - intros Hd. eexists. rewrite index_unfold, result_bind. simpl.
    rewrite Hd. reflexivity.
  - destruct (result (read_files fuel fs args (scan_dir args)
                        (recursive args))) as [files|e|] eqn:Hr.
    + by apply index_spec.
    + by rewrite index_unfold, result_bind, Hr.
    + by rewrite index_unfold, result_bind, Hr.
  - intros rel f Ht Hu. unfold card_of, preview_of. by rewrite Ht, Hu.
Qed.

(** In the sample tree a file is not a directory, so a build rooted there
    aborts; the tree holds a text file that is not UTF-8, and the page of
    [srv/] is built, that file's card with the link and the type label
    only. *)
Lemma build_abort_policy_witness :
  (exists msg,
     result (index 1 fs_sample (Args ["srv"; "b.txt"] true false))
     = Raise (TypeError msg))
  /\ (exists cards,
       result (index 2 fs_sample (Args ["srv"] true false))
       = Ret (page_of cards)
       /\ Forall2 (is_card_of fs_sample (Args ["srv"] true false))
            (sorted [["srv"; "b.txt"]; ["srv"; "a.png"];
                     ["srv"; "sub"; "c.mp4"]; ["srv"; "sub"; "bad.txt"]])
            cards)
  /\ card_of ["sub"; "bad.txt"] (File "text/plain" (String "255"%char "x") true)
     = card_link_only (get_html_link "sub/bad.txt" "text/plain").
Proof.
  split_and!.
  - apply (proj1 (build_abort_policy fs_sample
                    (Args ["srv"; "b.txt"] true false) 0)).
    reflexivity.
  - exact (proj1 (proj2 (build_abort_policy fs_sample
                           (Args ["srv"] true false) 2))).
  - apply (proj2 (proj2 (build_abort_policy fs_sample
                           (Args ["srv"] true false) 2)));
      reflexivity.
Defined.

(** C4, as stated, fails: the root is a directory, and the file that cannot
    be opened aborts the whole build, the card of the other file lost with
    it. *)
Lemma unreadable_file_aborts_build :
  is_dir fs_locked ["srv"] = true
  /\ result (read_files 1 fs_locked (Args ["srv"] false false) ["srv"] false)
     = Ret [["srv"; "a.png"]; ["srv"; "secret.txt"]]
  /\ result (index 1 fs_locked (Args ["srv"] false false))
     = Raise (PermissionError ["srv"; "secret.txt"]).
Proof. by vm_compute. Qed.

Lemma read_files_equiv fs1 fs2 args fuel dir rec :
  fs_equiv fs1 fs2 -> names_unique fs1 ->
  match result (read_files fuel fs1 args dir rec),
        result (read_files fuel fs2 args dir rec) with
  | Ret l1, Ret l2 => l1 ≡ₚ l2
  | Raise e1, Raise e2 => e1 = e2
  | OutOfFuel, OutOfFuel => True
  | _, _ => False
  end.
Proof.
  intros He Hu. destruct (is_dir fs1 dir) eqn:Hd.
  - rewrite (read_files_scan fs1 _ _ _ _ Hd).
    rewrite (is_dir_equiv _ _ He Hu) in Hd.
    rewrite (read_files_scan fs2 _ _ _ _ Hd).
    by destruct (scan_equiv _ _ He Hu fuel dir rec).
  - destruct fuel as [|fuel]; [done|]. simpl.
    rewrite <- (is_dir_equiv _ _ He Hu dir), Hd. done.
Qed.

(** C9: the outcome of a build is a function of the tree: two builds
    against the same tree give the same page, byte for byte, also when the
    directories report their entries in another order the second time. *)
Theorem index_deterministic fs1 fs2 args fuel :
  fs_equiv fs1 fs2 ->
  names_unique fs1 ->
  result (index fuel fs1 args) = result (index fuel fs2 args).
Proof.
  intros He Hu. rewrite !index_unfold, !result_bind.
  pose proof (read_files_equiv fs1 fs2 args fuel (scan_dir args)
                (recursive args) He Hu) as Hr.
  destruct (result (read_files fuel fs1 args (scan_dir args) (recursive args)))
    as [l1|e1|];
    destruct (result (read_files fuel fs2 args (scan_dir args)
                        (recursive args))) as [l2|e2|];
    try done; [|by subst].
  rewrite !result_bind, (sorted_perm_eq _ _ Hr).
  by rewrite (for_each_ext _ _ _ _ (index_body_equiv fs1 fs2 He Hu args)).
Qed.

Lemma index_deterministic_witness :
  result (index 2 fs_sample (Args ["srv"] true false))
  = result (index 2 fs_sample_reordered (Args ["srv"] true false)).
Proof.
  apply (index_deterministic fs_sample fs_sample_reordered).
  - apply (bool_decide_unpack _). by vm_compute.
  - apply (bool_decide_unpack _). by vm_compute.
Defined.

(** * Further properties *)

(** ** What is printed *)

Lemma stdout_bind {A B} (m : M A) (k : A -> M B) :
  stdout (bind m k) =
    stdout m ++ match result m with
                | Ret a => stdout (k a)
                | _ => []
                end.
Proof.
  destruct m as [out [a|e|]]; simpl; rewrite ?app_nil_r; try done.
  by destruct (k a).
Qed.

Lemma for_each_quiet {A B} (xs : list A) (acc : B) (body : B -> A -> M B) :
  (forall b x, stdout (body b x) = []) ->
  stdout (for_each xs acc body) = [].
Proof.
  intros Hq. revert acc. induction xs as [|x xs IH]; intros acc; [done|].
  simpl. rewrite stdout_bind, Hq. simpl.
  destruct (result (body acc x)); [apply IH|done..].
Qed.

Lemma vprint_quiet args msg : verbose args = false -> vprint args msg = ret tt.
Proof. unfold vprint. by intros ->. Qed.

Lemma make_preview_quiet fs args wf t :
  verbose args = false -> stdout (make_preview fs args wf t) = [].
Proof.
  intros Hv. unfold make_preview.
  destruct (String.eqb t "text/plain").
  - unfold read_text, try_except.
    destruct (stat fs (file_path wf)) as [[f|es|tgt|]|]; try done.
    destruct (f_readable f); [|done].
    destruct (utf8_valid (f_content f)); [done|].
    simpl. by rewrite (vprint_quiet _ _ Hv).
  - destruct (py_in t VIDEO_MIME_TYPES); [done|].
    by destruct (py_in t IMAGE_MIME_TYPES).
Qed.

Lemma from_file_quiet fs p : stdout (from_file fs p) = [].
Proof.
  unfold from_file. destruct (stat fs p) as [[f|es|t|]|]; try done.
  by destruct (f_readable f).
Qed.

Lemma generate_html_quiet fs args wf :
  verbose args = false -> stdout (generate_html fs args wf) = [].
Proof.
  intros Hv. unfold generate_html.
  rewrite stdout_bind, from_file_quiet. simpl.
  destruct (result (from_file fs (file_path wf))) as [t|e|]; try done.
  rewrite stdout_bind, (make_preview_quiet _ _ _ _ Hv). simpl.
  by destruct (result (make_preview fs args wf t)).
Qed.

Lemma index_body_quiet fs args h fil :
  verbose args = false -> stdout (index_body fs args h fil) = [].
Proof.
  intros Hv. unfold index_body, WebFile_init.
  destruct (relative_to fil (scan_dir args)) as [rel|]; [|done].
  rewrite bind_ret_l, stdout_bind, (generate_html_quiet _ _ _ Hv). simpl.
  by destruct (result (generate_html fs args _)).
Qed.

Lemma read_files_quiet fuel fs args dir rec :
  verbose args = false -> stdout (read_files fuel fs args dir rec) = [].
Proof.
  intros Hv. revert dir. induction fuel as [|fuel IH]; intros dir; [done|].
  simpl. destruct (is_dir fs dir); [|done]. simpl.
  rewrite stdout_bind. unfold iterdir.
  destruct (stat fs dir) as [[f|es|t|]|]; try done. simpl.
  apply for_each_quiet. intros objects file.
  destruct (is_file fs file); [done|].
  destruct (is_dir fs file).
  - destruct rec; [|done]. rewrite stdout_bind, IH. simpl.
    by destruct (result (read_files fuel fs args file true)).
  - by rewrite (vprint_quiet _ _ Hv).
Qed.

(** X1: without the verbose flag a build prints nothing, whatever the tree
    holds and however the build ends. *)
Theorem index_quiet fs args fuel :
  verbose args = false -> stdout (index fuel fs args) = [].
Proof.
  intros Hv. rewrite index_unfold, stdout_bind, (read_files_quiet _ _ _ _ _ Hv).
  simpl.
  destruct (result (read_files fuel fs args (scan_dir args) (recursive args)))
    as [files|e|]; try done.
  rewrite stdout_bind, for_each_quiet; [|intros; by apply index_body_quiet].
  simpl. by destruct (result (for_each _ _ _)).
Qed.

Lemma index_quiet_witness :
  stdout (index 2 fs_sample (Args ["srv"] true false)) = [].
Proof. apply (index_quiet fs_sample (Args ["srv"] true false) 2). reflexivity. Defined.

(** X2: the only line the rendering of a file prints is the decoding
    diagnostic: it is printed when the verbose flag is set and the file is
    detected as text/plain and is not valid UTF-8, and in no other case. *)
Theorem render_stdout fs args p rel f :
  stat fs p = Some (NFile f) ->
  f_readable f = true ->
  relative_to p (scan_dir args) = Some rel ->
  stdout (render fs args p) =
    if verbose args && String.eqb (f_mime f) "text/plain"
       && negb (utf8_valid (f_content f))
    then ["Failed to decode " +:+ path_str p]
    else [].
Proof.
  intros Hstat Hread Hrel.
  rewrite (render_unfold _ _ _ _ _ Hstat Hread Hrel), stdout_bind.
  assert (forall o : outcome (option string),
            match o with
            | Ret a => stdout (ret (A:=string) (if truthy a
                 then card_with_preview
                        (get_html_link (path_str rel) (f_mime f))
                        (default EmptyString a)
                 else card_link_only
                        (get_html_link (path_str rel) (f_mime f))))
            | _ => []
            end = []) as -> by (by intros [a|e|]).
  rewrite app_nil_r. unfold make_preview.
  destruct (String.eqb (f_mime f) "text/plain").
  - unfold read_text. cbn [file_path]. rewrite Hstat, Hread.
    destruct (utf8_valid (f_content f)).
    + by rewrite !andb_false_r.
    + unfold vprint. by destruct (verbose args).
  - rewrite andb_false_r.
    destruct (py_in (f_mime f) VIDEO_MIME_TYPES); [done|].
    by destruct (py_in (f_mime f) IMAGE_MIME_TYPES).
Qed.

Lemma render_stdout_witness :
  stdout (render fs_sample (Args ["srv"] true true) ["srv"; "sub"; "bad.txt"])
  = ["Failed to decode srv/sub/bad.txt"]
  /\ stdout (render fs_sample (Args ["srv"] true true) ["srv"; "b.txt"]) = [].
Proof.
  split.
  - apply (render_stdout fs_sample (Args ["srv"] true true)
             ["srv"; "sub"; "bad.txt"] ["sub"; "bad.txt"]
             (File "text/plain" (String "255"%char "x") true)); reflexivity.
  - apply (render_stdout fs_sample (Args ["srv"] true true)
             ["srv"; "b.txt"] ["b.txt"]
             (File "text/plain" hello_world true)); reflexivity.
Defined.

(** ** More on the scanner *)

Lemma read_files_unfold fuel fs args dir rec :
  read_files (S fuel) fs args dir rec =
    if negb (is_dir fs dir)
    then raise (TypeError (path_str dir +:+ " is not a directory"))
    else files <- iterdir fs dir ;;
         for_each files []
           (read_files_body fs args rec
              (fun file => read_files fuel fs args file rec)).
Proof. reflexivity. Qed.

Lemma iterdir_children fs dir :
  is_dir fs dir = true -> iterdir fs dir = ret (children fs dir).
Proof.
  unfold is_dir, iterdir, children.
  by destruct (stat fs dir) as [[f|es|t|]|].
Qed.




Lemma for_each_ext_in {A B} (xs : list A) (acc : B)
    (body1 body2 : B -> A -> M B) :
  (forall b x, x ∈ xs -> body1 b x = body2 b x) ->
  for_each xs acc body1 = for_each xs acc body2.
Proof.
  revert acc. induction xs as [|x xs IH]; intros acc Hb; simpl; [done|].
  rewrite Hb; [|left].
  destruct (body2 acc x) as [out [b|e|]]; simpl; try done.
  rewrite IH; [done|]. intros b' y Hy. apply Hb. by right.
Qed.

(** Of the command line the scanner reads the verbose flag only. *)
Lemma read_files_args fuel fs args1 args2 dir rec :
  verbose args1 = verbose args2 ->
  read_files fuel fs args1 dir rec = read_files fuel fs args2 dir rec.
Proof.
  intros Hv. revert dir. induction fuel as [|fuel IH]; intros dir; [done|].
  rewrite !read_files_unfold. destruct (is_dir fs dir); [|done]. simpl.
  destruct (iterdir fs dir) as [out [files|e|]]; simpl; try done.
  rewrite (for_each_ext files [] _
             (read_files_body fs args2 rec
                (fun file => read_files fuel fs args2 file rec))); [done|].
  intros objects file. unfold read_files_body, vprint.
  by rewrite IH, Hv.
Qed.

(** X4: when the directory has no subdirectory, the recursive flag changes
    nothing: the scan returns the same list and prints the same lines, and
    so does the build of the page. *)
Theorem recursive_flag_irrelevant fs dir v fuel :
  forallb (fun p => negb (is_dir fs p)) (children fs dir) = true ->
  read_files (S fuel) fs (Args dir true v) dir true
  = read_files (S fuel) fs (Args dir false v) dir false
  /\ index (S fuel) fs (Args dir true v) = index (S fuel) fs (Args dir false v).
Proof.
  intros Hnd.
  assert (read_files (S fuel) fs (Args dir true v) dir true
          = read_files (S fuel) fs (Args dir false v) dir false) as Hrf.
  { rewrite (read_files_args _ _ (Args dir true v) (Args dir false v));
      [|done].
    rewrite !read_files_unfold. destruct (is_dir fs dir) eqn:Hd; [|done].
    simpl. rewrite (iterdir_children _ _ Hd), !bind_ret_l.
    apply for_each_ext_in. intros objects file Hin.
    rewrite forallb_forall in Hnd.
    specialize (Hnd file (proj1 (list_elem_of_In _ _) Hin)).
    unfold read_files_body. destruct (is_file fs file); [done|].
    by destruct (is_dir fs file). }
  split; [done|]. rewrite !index_unfold.
  unfold scan_dir. cbn [recursive directory]. rewrite Hrf.
  reflexivity.
Qed.

Lemma recursive_flag_irrelevant_witness :
  read_files 1 fs_flat (Args ["srv"] true true) ["srv"] true
  = read_files 1 fs_flat (Args ["srv"] false true) ["srv"] false
  /\ index 1 fs_flat (Args ["srv"] true true)
     = index 1 fs_flat (Args ["srv"] false true).
Proof.
  apply (recursive_flag_irrelevant fs_flat ["srv"] true 0). reflexivity.
Defined.

Lemma filter_none {A} (P : A -> Prop) `{!forall x, Decision (P x)} (l : list A) :
  (forall x, x ∈ l -> ~ P x) -> filter P l = [].
Proof.
  induction l as [|x l IH]; intros Hn; [done|].
  rewrite filter_cons_False; [|apply Hn; left].
  apply IH. intros y Hy. apply Hn. by right.
Qed.

Lemma children_length fs dir p :
  p ∈ children fs dir -> length p = S (length dir).
Proof.
  intros (es & name & j & _ & _ & ->)%elem_of_children.
  unfold joinpath. rewrite length_app. simpl. lia.
Qed.

Lemma gather_filter_depth fs fuel n files l :
  (forall file, file ∈ files -> length file = S n) ->
  gather (contribution fs true (fun f => scan fuel fs f true)) files = Some l ->
  filter (fun p : path => length p = S n) l
  = filter (fun p : path => is_file fs p = true) files.
Proof.
  revert l. induction files as [|file files IH]; intros l Hlen; cbn [gather].
  { by intros [= <-]. }
  destruct (contribution fs true _ file) as [a|] eqn:Hc; [|done].
  destruct (gather _ files) as [b|] eqn:Hg; [|done]. intros [= <-].
  assert (filter (fun p : path => length p = S n) b
          = filter (fun p => is_file fs p = true) files) as Hb.
  { apply IH; [|done]. intros f Hf. apply Hlen. by right. }
  rewrite filter_app, Hb. clear Hb IH. unfold contribution in Hc.
  destruct (is_file fs file) eqn:Hf.
  - injection Hc as <-.
    rewrite (filter_cons_True (fun p => is_file fs p = true)) by done.
    rewrite filter_cons_True; [done|]. apply Hlen. left.
  - rewrite (filter_cons_False (fun p => is_file fs p = true))
      by (by rewrite Hf).
    destruct (is_dir fs file); [|by injection Hc as <-].
    rewrite filter_none; [done|]. intros p Hp.
    destruct (scan_sound _ _ _ _ _ _ Hc Hp) as [_ (name & rest & ->)].
    rewrite length_app, (Hlen file) by left. simpl. lia.
Qed.

(** X5: recursion only adds: the list of the scan without recursion is the
    list of the recursive scan restricted to the entries of the directory
    itself, in the same order. *)
Theorem recursive_scan_extends fs args dir fuel1 fuel2 l1 l2 :
  result (read_files fuel1 fs args dir false) = Ret l1 ->
  result (read_files fuel2 fs args dir true) = Ret l2 ->
  l1 = filter (fun p : path => length p = S (length dir)) l2.
Proof.
  intros H1 H2. pose proof (read_files_Ret_is_dir _ _ _ _ _ _ H1) as Hd.
  rewrite (read_files_scan _ _ _ _ _ Hd) in H1.
  rewrite (read_files_scan _ _ _ _ _ Hd) in H2.
  destruct fuel1 as [|fuel1]; [done|]. rewrite scan_nonrec in H1.
  injection H1 as <-.
  destruct fuel2 as [|fuel2]; [done|]. simpl in H2.
  destruct (gather _ (children fs dir)) as [l|] eqn:Hg; [|done].
  injection H2 as <-. symmetry.
  apply (gather_filter_depth fs fuel2 (length dir) (children fs dir)); [|done].
  intros file. apply children_length.
Qed.

Lemma recursive_scan_extends_witness :
  [["srv"; "b.txt"]; ["srv"; "a.png"]]
  = filter (fun p : path => length p = 2)
      [["srv"; "b.txt"]; ["srv"; "a.png"];
       ["srv"; "sub"; "c.mp4"]; ["srv"; "sub"; "bad.txt"]].
Proof.
  apply (recursive_scan_extends fs_sample (Args ["srv"] true false) ["srv"] 1 2);
    reflexivity.
Defined.

Lemma relative_to_Some p base rel :
  relative_to p base = Some rel <-> p = base ++ rel.
Proof.
  split; [|intros ->; apply relative_to_app].
  revert p. induction base as [|b base IH]; intros p; simpl.
  - by intros [= ->].
  - destruct p as [|c p]; [done|].
    destruct (String.eqb b c) eqn:E; [|done].
    apply String.eqb_eq in E as ->. intros ->%IH. done.
Qed.

(** X7: [WebFile(path)] succeeds exactly for the paths below the root, with the
    rest of the path as relative path, no type and no markup yet; for any
    other path it raises [ValueError]. *)
Theorem WebFile_init_spec args p :
  (exists rel, p = scan_dir args ++ rel
               /\ WebFile_init args p = ([], Ret (mkWebFile p rel None None))
               /\ get_html (mkWebFile p rel None None) = EmptyString)
  \/ ((forall rel, p <> scan_dir args ++ rel)
      /\ WebFile_init args p = ([], Raise ValueError)).
Proof.
  unfold WebFile_init.
  destruct (relative_to p (scan_dir args)) as [rel|] eqn:E.
  - left. exists rel. split_and!; [|done|done]. by apply relative_to_Some.
  - right. split; [|done]. intros rel Hrel.
    apply relative_to_Some in Hrel. congruence.
Qed.

(** X8: every path the scan of the root returns is a regular file strictly
    below the root, so that [WebFile] accepts it and its relative path, the
    target of its link, is never empty. *)
Theorem scanned_files_below_root fs args fuel rec l p :
  result (read_files fuel fs args (scan_dir args) rec) = Ret l ->
  p ∈ l ->
  is_file fs p = true
  /\ exists name rest,
       p = scan_dir args ++ name :: rest
       /\ WebFile_init args p
          = ([], Ret (mkWebFile p (name :: rest) None None)).
Proof.
  intros Hr Hp.
  destruct (read_files_sound _ _ _ _ _ _ _ Hr Hp) as [Hf (name & rest & ->)].
  split; [done|]. exists name, rest. split; [done|].
  unfold WebFile_init. by rewrite relative_to_app.
Qed.

Lemma scanned_files_below_root_witness :
  is_file fs_sample ["srv"; "sub"; "c.mp4"] = true
  /\ exists name rest,
       ["srv"; "sub"; "c.mp4"] = ["srv"] ++ name :: rest
       /\ WebFile_init (Args ["srv"] true false) ["srv"; "sub"; "c.mp4"]
          = ([], Ret (mkWebFile ["srv"; "sub"; "c.mp4"] (name :: rest)
                        None None)).
Proof.
  apply (scanned_files_below_root fs_sample (Args ["srv"] true false) 2 true
           [["srv"; "b.txt"]; ["srv"; "a.png"];
            ["srv"; "sub"; "c.mp4"]; ["srv"; "sub"; "bad.txt"]]).
  - reflexivity.
  - apply list_elem_of_In. simpl. tauto.
Defined.

(** ** More on the page *)

Lemma index_loop_first fs args files h :
  Forall (fun p => is_file fs p = true
                   /\ is_Some (relative_to p (scan_dir args))) files ->
  forallb (readable_file fs) files = false ->
  exists before p after,
    files = before ++ p :: after
    /\ forallb (readable_file fs) before = true
    /\ readable_file fs p = false
    /\ result (for_each files h (index_body fs args))
       = Raise (PermissionError p).
Proof.
  intros Hall. revert h.
  induction Hall as [|p files [Hf [rel Hrel]] _ IH]; intros h; [done|].
  cbn [forallb for_each]. unfold is_file in Hf.
  destruct (stat fs p) as [[f| | |]|] eqn:Hstat; try done.
  rewrite result_bind, index_body_render, result_bind.
  destruct (readable_file fs p) eqn:Hp.
  - intros Hrest. simpl in Hrest.
    assert (f_readable f = true) as Hread.
    { unfold readable_file in Hp. by rewrite Hstat in Hp. }
    rewrite (render_card _ _ _ _ _ Hstat Hread Hrel). simpl.
    destruct (IH (h +:+ card_of rel f) Hrest)
      as (before & q & after & -> & Hb & Hq & Hres).
    exists (p :: before), q, after. split_and!; [done| |done|done].
    simpl. by rewrite Hp, Hb.
  - intros _. exists [], p, files. split_and!; [done|done|done|].
    assert (f_readable f = false) as Hread.
    { unfold readable_file in Hp. by rewrite Hstat in Hp. }
    by rewrite (render_unreadable _ _ _ _ _ Hstat Hread Hrel).
Qed.

(** X12: when some scanned file cannot be opened, the build ends with the
    [PermissionError] of the first such file in the order of the page: the
    files before it can all be opened. *)
Theorem first_unreadable_file_aborts fs args fuel files :
  result (read_files fuel fs args (scan_dir args) (recursive args))
    = Ret files ->
  forallb (readable_file fs) files = false ->
  exists before p after,
    sorted files = before ++ p :: after
    /\ forallb (readable_file fs) before = true
    /\ readable_file fs p = false
    /\ result (index fuel fs args) = Raise (PermissionError p).
Proof.
  intros Hr Hnr.
  assert (Forall (fun p => is_file fs p = true
                           /\ is_Some (relative_to p (scan_dir args)))
            (sorted files)) as Hall.
  { apply Forall_forall. intros p Hp. rewrite sorted_Permutation in Hp.
    destruct (read_files_sound _ _ _ _ _ _ _ Hr Hp)
      as [Hf (name & rest & ->)].
    split; [done|]. rewrite relative_to_app. eauto. }
  rewrite <- (readable_file_forallb_perm fs _ _ (sorted_Permutation files))
    in Hnr.
  destruct (index_loop_first fs args (sorted files) HTML_HEAD Hall Hnr)
    as (before & p & after & Hs & Hb & Hp & Hres).
  exists before, p, after. split_and!; [done..|].
  by rewrite index_unfold, result_bind, Hr, result_bind, Hres.
Qed.

Lemma first_unreadable_file_aborts_witness :
  exists before p after,
    sorted [["srv"; "a.png"]; ["srv"; "secret.txt"]] = before ++ p :: after
    /\ forallb (readable_file fs_locked) before = true
    /\ readable_file fs_locked p = false
    /\ result (index 1 fs_locked (Args ["srv"] false false))
       = Raise (PermissionError p).
Proof.
  apply (first_unreadable_file_aborts fs_locked (Args ["srv"] false false) 1
           [["srv"; "a.png"]; ["srv"; "secret.txt"]]); reflexivity.
Defined.

(** X9: what [generate_html] does to the [WebFile] of a regular file. When
    the file can be opened it keeps the two paths, records the detected type
    and stores the card, which [get_html] then returns; a decoding error
    never leaves it. When the file cannot be opened it raises the
    [PermissionError] of opening it and prints nothing. *)
Theorem generate_html_outcome fs args wf f :
  stat fs (file_path wf) = Some (NFile f) ->
  if f_readable f then
    exists out wf',
      generate_html fs args wf = (out, Ret wf')
      /\ wf' = mkWebFile (file_path wf) (file_rel_path wf)
                 (Some (f_mime f)) (Some (card_of (file_rel_path wf) f))
      /\ get_html wf' = card_of (file_rel_path wf) f
  else generate_html fs args wf
       = ([], Raise (PermissionError (file_path wf))).
Proof.
  intros Hstat. unfold generate_html, from_file. rewrite Hstat.
  destruct (f_readable f) eqn:Hread; [|done].
  rewrite bind_ret_l. unfold make_preview, card_of, preview_of.
  destruct (String.eqb (f_mime f) "text/plain").
  { unfold read_text. rewrite Hstat, Hread.
    destruct (utf8_valid (f_content f)).
    - eexists _, _. split_and!; reflexivity.
    - unfold vprint. destruct (verbose args);
        eexists _, _; split_and!; reflexivity. }
  destruct (py_in (f_mime f) VIDEO_MIME_TYPES).
  { eexists _, _. split_and!; reflexivity. }
  destruct (py_in (f_mime f) IMAGE_MIME_TYPES);
    eexists _, _; split_and!; reflexivity.
Qed.

(** The picture of the flat tree, and the file of the locked tree. *)
Lemma generate_html_outcome_witness :
  (exists out wf',
     generate_html fs_flat (Args ["srv"] false false)
       (mkWebFile ["srv"; "a.png"] ["a.png"] None None) = (out, Ret wf')
     /\ wf' = mkWebFile ["srv"; "a.png"] ["a.png"] (Some "image/png")
                (Some (card_of ["a.png"] (File "image/png" "PNG" true)))
     /\ get_html wf' = card_of ["a.png"] (File "image/png" "PNG" true))
  /\ generate_html fs_locked (Args ["srv"] false false)
       (mkWebFile ["srv"; "secret.txt"] ["secret.txt"] None None)
     = ([], Raise (PermissionError ["srv"; "secret.txt"])).
Proof.
  split.
  - apply (generate_html_outcome fs_flat (Args ["srv"] false false)
             (mkWebFile ["srv"; "a.png"] ["a.png"] None None)
             (File "image/png" "PNG" true)).
    reflexivity.
  - apply (generate_html_outcome fs_locked (Args ["srv"] false false)
             (mkWebFile ["srv"; "secret.txt"] ["secret.txt"] None None)
             (File "text/plain" "secret" false)).
    reflexivity.
Defined.

(** Whatever the type of the file, its card opens with the link and the
    type label and closes with the same tags. *)
Theorem card_of_shape rel f :
  exists middle,
    card_of rel f =
      card_open +:+ card_body_open
      +:+ get_html_link (path_str rel) (f_mime f)
      +:+ middle +:+ "</div></div><br/>".
Proof.
  unfold card_of. destruct (preview_of rel f) as [preview|].
  - exists (collapsible_button +:+ content_open +:+ preview +:+ "</div>").
    unfold card_with_preview. by rewrite !string_app_assoc.
  - exists EmptyString. unfold card_link_only. by rewrite !string_app_assoc.
Qed.

(** X10: whatever the type of a file that can be opened, the card rendered
    for it opens with the two tags of the card, the link to the relative
    path and the type label, and closes with the same tags; only what lies
    between depends on the preview. The markup is written out. *)
Theorem every_card_has_link fs args p rel f :
  stat fs p = Some (NFile f) ->
  f_readable f = true ->
  relative_to p (scan_dir args) = Some rel ->
  let r := path_str rel in
  exists middle,
    result (render fs args p) =
      Ret ("<div class=" +:+ dq +:+ "card bg-primary-subtle" +:+ dq
           +:+ " style=" +:+ dq +:+ "width:90%; margin:0 auto;" +:+ dq +:+ ">"
           +:+ "<div class=" +:+ dq +:+ "card-body" +:+ dq +:+ ">"
           +:+ "<a class=" +:+ dq +:+ "link-primary" +:+ dq +:+ " href=" +:+ dq
           +:+ r +:+ dq +:+ " target=" +:+ dq +:+ "_blank" +:+ dq +:+ ">" +:+ r
           +:+ "</a> <sub>(" +:+ f_mime f +:+ ")</sub>"
           +:+ middle +:+ "</div></div><br/>").
Proof.
  intros Hstat Hread Hrel r. destruct (card_of_shape rel f) as [middle Hm].
  exists middle. rewrite (render_card _ _ _ _ _ Hstat Hread Hrel), Hm.
  fold r. unfold card_open, card_body_open, get_html_link, dq.
  rewrite !string_app_assoc. reflexivity.
Qed.

Lemma every_card_has_link_witness :
  exists middle,
    result (render fs_sample (Args ["srv"] true false) ["srv"; "b.txt"]) =
      Ret ("<div class=" +:+ dq +:+ "card bg-primary-subtle" +:+ dq
           +:+ " style=" +:+ dq +:+ "width:90%; margin:0 auto;" +:+ dq +:+ ">"
           +:+ "<div class=" +:+ dq +:+ "card-body" +:+ dq +:+ ">"
           +:+ "<a class=" +:+ dq +:+ "link-primary" +:+ dq +:+ " href=" +:+ dq
           +:+ "b.txt" +:+ dq +:+ " target=" +:+ dq +:+ "_blank" +:+ dq
           +:+ ">b.txt</a> <sub>(text/plain)</sub>"
           +:+ middle +:+ "</div></div><br/>").
Proof.
  apply (every_card_has_link fs_sample (Args ["srv"] true false)
           ["srv"; "b.txt"] ["b.txt"] (File "text/plain" hello_world true));
    reflexivity.
Defined.

(** ** The order of the page *)

Lemma path_le_prefix_between (d p q r : path) :
  path_le p q -> path_le q r ->
  d `prefix_of` p -> d `prefix_of` r -> d `prefix_of` q.
Proof.
  unfold path_le. revert p q r.
  induction d as [|a d IH]; intros p q r Hpq Hqr [p' ->] [r' ->].
  { apply prefix_nil. }
  destruct q as [|b q]; [done|]. simpl in Hpq, Hqr.
  destruct (String.eqb a b) eqn:Eab.
  - apply String.eqb_eq in Eab as <-. rewrite string_eqb_refl in Hqr.
    apply prefix_cons. apply (IH (d ++ p') q (d ++ r')); [done|done|..].
    + by exists p'.
    + by exists r'.
  - assert (String.eqb b a = false) as Eba.
    { apply String.eqb_neq. apply String.eqb_neq in Eab. congruence. }
    rewrite Eba in Hqr. by rewrite (string_ltb_asym _ _ Hpq) in Hqr.
Qed.

(** X13: in the order of the page the files below one directory are not
    interleaved with others: between two files below [d] come only files
    below [d]. *)
Theorem directory_cards_contiguous (l l1 l2 l3 : list path) (p r d : path) :
  sorted l = l1 ++ p :: l2 ++ r :: l3 ->
  d `prefix_of` p -> d `prefix_of` r ->
  forall q, q ∈ l2 -> d `prefix_of` q.
Proof.
  intros Hs Hp Hr q Hq.
  pose proof (Sorted_StronglySorted path_le _ (sorted_Sorted l)) as Hss.
  rewrite Hs in Hss.
  apply StronglySorted_app_1_r in Hss.
  apply StronglySorted_cons in Hss as [Hpq Hss].
  apply (path_le_prefix_between d p q r); [| |done|done].
  - rewrite Forall_forall in Hpq. apply Hpq.
    apply elem_of_app. by left.
  - apply (StronglySorted_app_1_elem_of path_le l2 (r :: l3)); [done|done|left].
Qed.

Lemma directory_cards_contiguous_witness :
  ["srv"; "sub"] `prefix_of` ["srv"; "sub"; "bad.txt"].
Proof.
  apply (directory_cards_contiguous
           [["srv"; "sub"; "d.txt"]; ["srv"; "sub.txt"]; ["srv"; "a.png"];
            ["srv"; "sub"; "bad.txt"]; ["srv"; "sub"; "a.mp4"]]
           [["srv"; "a.png"]] [["srv"; "sub"; "bad.txt"]] [["srv"; "sub.txt"]]
           ["srv"; "sub"; "a.mp4"] ["srv"; "sub"; "d.txt"] ["srv"; "sub"]).
  - reflexivity.
  - by exists ["a.mp4"].
  - by exists ["d.txt"].
  - left.
Defined.

(** ** Reading text *)

Lemma utf8_run_ascii s : is_ascii s = true -> utf8_run U_start s = true.
Proof.
  induction s as [|c s IH]; simpl; [done|].
  intros [Hc Hs]%andb_prop. apply N.ltb_lt in Hc.
  assert ((N_of_ascii c <=? 127)%N = true) as -> by (apply N.leb_le; lia).
  by apply IH.
Qed.

(** X15: a text/plain file of ASCII bytes always decodes: its card has the text
    preview. *)
Theorem ascii_text_previewed fs args p rel f :
  stat fs p = Some (NFile f) ->
  f_readable f = true ->
  relative_to p (scan_dir args) = Some rel ->
  f_mime f = "text/plain" ->
  is_ascii (f_content f) = true ->
  render fs args p =
    ([], Ret (card_with_preview
                (get_html_link (path_str rel) "text/plain")
                (get_html_text_plain (universal_newlines (f_content f))))).
Proof.
  intros Hstat Hread Hrel Ht Ha.
  rewrite (render_unfold _ _ _ _ _ Hstat Hread Hrel), Ht.
  unfold make_preview, read_text. cbn [file_path String.eqb Ascii.eqb].
  rewrite Hstat, Hread. unfold utf8_valid. by rewrite (utf8_run_ascii _ Ha).
Qed.

Lemma ascii_text_previewed_witness :
  render fs_markup (Args ["srv"] false false) ["srv"; "x.txt"] =
    ([], Ret (card_with_preview
                (get_html_link "x.txt" "text/plain")
                (get_html_text_plain "<b>bold</b>"))).
Proof.
  apply (ascii_text_previewed fs_markup (Args ["srv"] false false)
           ["srv"; "x.txt"] ["x.txt"] (File "text/plain" "<b>bold</b>" true));
    reflexivity.
Defined.

Lemma universal_newlines_no_CR_aux n s :
  String.length s <= n -> occurs CR (universal_newlines s) = false.
Proof.
  revert s. induction n as [|n IH]; intros s Hn.
  { destruct s; [done|simpl in Hn; lia]. }
  destruct s as [|c s]; [done|]. simpl in Hn. cbn [universal_newlines].
  destruct (Ascii.eqb c CR) eqn:Ec.
  - cbn [occurs]. change (Ascii.eqb CR LF) with false. simpl.
    destruct s as [|c' s]; [done|]. simpl in Hn.
    destruct (Ascii.eqb c' LF); apply IH; simpl; lia.
  - cbn [occurs]. rewrite Ascii.eqb_sym, Ec. simpl. apply IH. lia.
Qed.

(** X16: text is read with universal newlines: the text that reaches the
    preview holds no carriage return, and a text without carriage return is
    read unchanged. *)
Theorem universal_newlines_spec s :
  occurs CR (universal_newlines s) = false
  /\ (occurs CR s = false -> universal_newlines s = s).
Proof.
  split; [by apply (universal_newlines_no_CR_aux (String.length s))|].
  induction s as [|c s IH]; [done|]. cbn [occurs universal_newlines].
  destruct (Ascii.eqb CR c) eqn:Ec; [done|]. simpl.
  rewrite Ascii.eqb_sym, Ec. intros Hs. by rewrite (IH Hs).
Qed.

Lemma path_leb_app (d p q : path) : path_leb (d ++ p) (d ++ q) = path_leb p q.
Proof.
  induction d as [|a d IH]; simpl; [done|]. by rewrite string_eqb_refl.
Qed.

Lemma string_compare_extend (n : string) (c : ascii) (s : string) :
  String.compare n (n +:+ String c s) = Lt.
Proof.
  induction n as [|a n IH]; [done|].
  rewrite string_app_cons. simpl.
  unfold Ascii.compare. by rewrite N.compare_refl.
Qed.

(** X14: paths are ordered component by component, not as the strings they
    print as: everything below the directory [name] comes before an entry
    next to it whose name only continues [name], such as [name.txt],
    whatever the characters. *)
Theorem directory_before_longer_name (d : path) (name : string) (c : ascii)
    (suffix : string) (x : string) (rest : path) :
  path_le (d ++ name :: x :: rest) (d ++ [name +:+ String c suffix])
  /\ ~ path_le (d ++ [name +:+ String c suffix]) (d ++ name :: x :: rest).
Proof.
  unfold path_le. rewrite !path_leb_app. simpl.
  assert (String.eqb name (name +:+ String c suffix) = false) as Hne.
  { apply String.eqb_neq. intros H.
    pose proof (string_compare_extend name c suffix) as Hc.
    rewrite <- H, string_compare_refl in Hc. done. }
  assert (String.eqb (name +:+ String c suffix) name = false) as Hne'.
  { apply String.eqb_neq. apply String.eqb_neq in Hne. congruence. }
  assert (String.ltb name (name +:+ String c suffix) = true) as Hlt.
  { unfold String.ltb. by rewrite string_compare_extend. }
  rewrite Hne, Hne', Hlt, (string_ltb_asym _ _ Hlt). done.
Qed.

(** ** The lines of the scanner *)

Lemma for_each_stdout {A B} (xs : list A) (acc : B) (body : B -> A -> M B)
    (line : string) :
  line ∈ stdout (for_each xs acc body) ->
  exists b x, x ∈ xs /\ line ∈ stdout (body b x).
Proof.
  revert acc. induction xs as [|x xs IH]; intros acc; simpl.
  { by intros ?%elem_of_nil. }
  rewrite stdout_bind. intros [Hl|Hl]%elem_of_app.
  - exists acc, x. split; [left|done].
  - destruct (result (body acc x)) as [b|e|];
      try by apply elem_of_nil in Hl.
    destruct (IH _ Hl) as (b' & y & Hy & Hline).
    exists b', y. split; [by right|done].
Qed.

(** X6: every line the scanner prints, at any depth of the recursion, reports
    an entry below the scanned directory that is neither a regular file
    nor a directory; nothing is printed about files and directories. *)
Theorem read_files_lines fuel fs args dir rec line :
  line ∈ stdout (read_files fuel fs args dir rec) ->
  exists name rest,
    line = ignoring (dir ++ name :: rest)
    /\ is_other fs (dir ++ name :: rest) = true.
Proof.
  revert dir. induction fuel as [|fuel IH]; intros dir.
  { by intros ?%elem_of_nil. }
  rewrite read_files_unfold.
  destruct (is_dir fs dir) eqn:Hd; [|by intros ?%elem_of_nil]. simpl.
  rewrite (iterdir_children _ _ Hd), bind_ret_l.
  intros (objects & file & Hin & Hl)%for_each_stdout.
  apply elem_of_children in Hin as (es & name & j & _ & _ & ->).
  unfold read_files_body in Hl.
  destruct (is_file fs (joinpath dir name)) eqn:Hf;
    [by apply elem_of_nil in Hl|].
  destruct (is_dir fs (joinpath dir name)) eqn:Hd'.
  - destruct rec; [|by apply elem_of_nil in Hl].
    rewrite stdout_bind in Hl. apply elem_of_app in Hl as [Hl|Hl].
    + destruct (IH _ Hl) as (n & rest & -> & Ho).
      exists name, (n :: rest). by rewrite (joinpath_app dir name (n :: rest)).
    + destruct (result (read_files fuel fs args (joinpath dir name) true));
        by apply elem_of_nil in Hl.
  - unfold vprint in Hl. destruct (verbose args);
      [|by apply elem_of_nil in Hl].
    simpl in Hl. apply list_elem_of_singleton in Hl as ->.
    exists name, []. split; [done|].
    unfold is_other. fold (joinpath dir name). by rewrite Hf, Hd'.
Qed.

Lemma read_files_lines_witness :
  exists name rest,
    "srv/sock is neither file nor directory, ignoring"
    = ignoring (["srv"] ++ name :: rest)
    /\ is_other fs_sample (["srv"] ++ name :: rest) = true.
Proof.
  apply (read_files_lines 2 fs_sample (Args ["srv"] true true) ["srv"] true).
  apply list_elem_of_In. simpl. tauto.
Defined.
